(** * Jinja2CppLight: the render stage of the template engine

    A shallow embedding of [Jinja2CppLight.h]: the [Value] hierarchy, the
    [ControlSection] tree and the [render] methods of [Root], [ForSection],
    [Code] and [IfSection], which walk the tree against the mutable map
    [std::map<std::string, Value*> &valueByName].

    The map is passed by reference and the methods leave by [return] or by
    throwing [render_error], so every call is modelled by an [outcome] that
    carries the map as the call leaves it, on both exits. *)

From Stdlib Require Import ZArith String Ascii List Lia.
From Stdlib Require Import Floats.SpecFloat.
From stdpp Require Import base option list list_numbers strings gmap fin_maps pretty.

Open Scope Z_scope.
Open Scope string_scope.

(** ** Values *)

(** [class IntValue], [class FloatValue], [class StringValue].  An [int] is
    a [Z]; a [float] is an IEEE 754 datum, [spec_float]. *)
Inductive Value :=
| IntValue (value : Z)
| FloatValue (value : spec_float)
| StringValue (value : string).

(** [stringhelper.h] is not part of the header: [toString] is a parameter. *)
Class StringHelper := {
  toString_int : Z -> string;
  toString_float : spec_float -> string
}.

(** [Value::render]. *)
Definition Value_render {helper : StringHelper} (v : Value) : string :=
  match v with
  | IntValue value => toString_int value
  | FloatValue value => toString_float value
  | StringValue value => value
  end.

(** [std::string::empty]. *)
Definition empty (s : string) : bool :=
  match s with
  | EmptyString => true
  | String _ _ => false
  end.

(** The literal [0.0]. *)
Definition float_zero : spec_float := S754_zero false.

(** [a != b] on floating-point data: true when the comparison is unordered
    (a NaN) or when the data differ as numbers. The comparison itself does
    not depend on the precision of the format. *)
Definition float_neq (a b : spec_float) : bool :=
  match SFcompare a b with
  | Some Eq => false
  | _ => true
  end.

(** [Value::isTrue]: [value != 0], [value != 0.0], [!value.empty()]. *)
Definition isTrue (v : Value) : bool :=
  match v with
  | IntValue value => negb (value =? 0)%Z
  | FloatValue value => float_neq value float_zero
  | StringValue value => negb (empty value)
  end.

(** ** The rendering context and the ways a call leaves *)

(** [std::map< std::string, Value * >]. *)
Abbreviation ValueByName := (gmap string Value).

(** [class render_error : public std::runtime_error]. *)
Record render_error := Render_error { what : string }.

(** How a call of [render] leaves: by [return], by [throw], or not within
    the fuel given to the model. Both exits carry the map, which the callee
    received by reference. *)
Inductive outcome :=
| Returns (text : string) (valueByName : ValueByName)
| Throws (e : render_error) (valueByName : ValueByName)
| OutOfFuel.

(** ** The tree *)

(** [class ControlSection] and its subclasses that can be instantiated.
    Every node has the inherited vector [sections].  [Container] overrides
    [print] only, so it stays abstract and has no instances.  The positions
    ([startPos], [endPos], ...) are read by [print] alone and are left out. *)
#[warnings="-register-all"]
Inductive ControlSection :=
| Root (sections : list ControlSection)
| ForSection (loopStart loopEnd : Z) (varName : string)
    (sections : list ControlSection)
| Code (templateCode : string) (sections : list ControlSection)
| IfSection (m_isNegation : bool) (m_variableName : string)
    (sections : list ControlSection).

(** The two members that the header declares and another translation unit
    defines.  [Template::doSubstitutions] is static and takes the map by
    value; [IfSection::computeExpression] is [const] and takes a [const]
    reference: neither can change the caller's map. *)
Class TemplateImpl := {
  doSubstitutions : string -> ValueByName -> render_error + string;
  computeExpression : bool -> string -> ValueByName -> bool
}.

(** ** Rendering *)

(** [for( size_t j = 0; j < sections.size(); j++ )
       result += sections[j]->render( valueByName );] *)
Fixpoint render_sections (render : ControlSection -> ValueByName -> outcome)
    (sections : list ControlSection) (result : string) (valueByName : ValueByName)
    : outcome :=
  match sections with
  | [] => Returns result valueByName
  | section :: rest =>
      match render section valueByName with
      | Returns text valueByName' =>
          render_sections render rest (result +:+ text) valueByName'
      | Throws e valueByName' => Throws e valueByName'
      | OutOfFuel => OutOfFuel
      end
  end.

(** [for( int i = loopStart; i < loopEnd; i++ ) { ... }] of
    [ForSection::render].  One unit of fuel per iteration.  [i++] cannot
    overflow: it runs only after [i < loopEnd] held. *)
Fixpoint for_loop (render : ControlSection -> ValueByName -> outcome)
    (loopEnd : Z) (varName : string) (sections : list ControlSection)
    (fuel : nat) (i : Z) (result : string) (valueByName : ValueByName)
    : outcome :=
  if (i <? loopEnd)%Z then
    match fuel with
    | O => OutOfFuel
    | S fuel' =>
        match render_sections render sections result
                (<[varName := IntValue i]> valueByName) with
        | Returns result' valueByName' =>
            for_loop render loopEnd varName sections fuel' (i + 1) result'
              (delete varName valueByName')
        | Throws e valueByName' => Throws e valueByName'
        | OutOfFuel => OutOfFuel
        end
    end
  else Returns result valueByName.

(** The message of the [throw] in [ForSection::render]. *)
Definition already_exists (varName : string) : render_error :=
  Render_error ("variable " +:+ varName +:+ " already exists in this context").

(** [ControlSection::render], by the dynamic type of the node. *)
Fixpoint render {impl : TemplateImpl} (fuel : nat) (section : ControlSection)
    (valueByName : ValueByName) : outcome :=
  match fuel with
  | O => OutOfFuel
  | S fuel' =>
      match section with
      | Root sections =>
          render_sections (render fuel') sections "" valueByName
      | ForSection loopStart loopEnd varName sections =>
          match valueByName !! varName with
          | Some _ => Throws (already_exists varName) valueByName
          | None =>
              for_loop (render fuel') loopEnd varName sections fuel'
                loopStart "" valueByName
          end
      | Code templateCode _ =>
          match doSubstitutions templateCode valueByName with
          | inr processed => Returns processed valueByName
          | inl e => Throws e valueByName
          end
      | IfSection m_isNegation m_variableName sections =>
          if computeExpression m_isNegation m_variableName valueByName
          then render_sections (render fuel') sections "" valueByName
          else Returns "" valueByName
      end
  end.

(** Fuel that suffices for a node: one unit for the call, and below it the
    largest of the children's needs and, for a loop, its number of
    iterations. *)
Fixpoint fuel_bound (section : ControlSection) : nat :=
  let children :=
    fix children (l : list ControlSection) : nat :=
      match l with
      | [] => O
      | c :: l' => Nat.max (fuel_bound c) (children l')
      end in
  match section with
  | Root sections => S (children sections)
  | ForSection loopStart loopEnd _ sections =>
      S (Nat.max (Z.to_nat (loopEnd - loopStart)) (children sections))
  | Code _ _ => 1%nat
  | IfSection _ _ sections => S (children sections)
  end.

(** The same maximum over the children, as a function of its own. *)
Fixpoint sections_bound (l : list ControlSection) : nat :=
  match l with
  | [] => O
  | c :: l' => Nat.max (fuel_bound c) (sections_bound l')
  end.

(** ** The members defined outside the header *)

Module SpecModel.

(** Modelled from the spec: the trimming of the identifier between the
    delimiters, part of the absent [Template::doSubstitutions].  Whitespace
    is dropped from the left end, and from the right end through the
    reversed string. *)
Fixpoint ltrim (s : string) : string :=
  match s with
  | EmptyString => EmptyString
  | String a rest => if Ascii.is_space a then ltrim rest else s
  end.

Definition trim (s : string) : string :=
  String.rev (ltrim (String.rev (ltrim s))).

(** Are the next two characters both [c]?  Recognises [{{] and [}}]. *)
Definition is_pair (c a b : ascii) : bool :=
  Ascii.eqb a c && Ascii.eqb b c.

(** Modelled from the spec: the two failures of the absent
    [Template::doSubstitutions].  The spec names the error kind only; the
    messages are placeholders and no property depends on them. *)
Definition unbound (name : string) : render_error :=
  Render_error ("name " +:+ name +:+ " not defined").

Definition unterminated : render_error :=
  Render_error "substitution tag not closed".

(** Modelled from the spec: the scan of the absent
    [Template::doSubstitutions].  Outside a tag ([inside] is
    [None]) characters pass through until the opener; inside a tag
    ([inside] holds the characters read since the opener) they are collected
    until the closer, where the trimmed identifier is looked up and the
    text of its value spliced in. *)
Fixpoint substitute {helper : StringHelper} (valueByName : ValueByName)
    (inside : option string) (s : string) : render_error + string :=
  match inside, s with
  | None, EmptyString => inr EmptyString
  | None, String a rest =>
      match rest with
      | String b rest' =>
          if is_pair "{" a b then substitute valueByName (Some EmptyString) rest'
          else
            match substitute valueByName None rest with
            | inr text => inr (String a text)
            | inl e => inl e
            end
      | EmptyString => inr (String a EmptyString)
      end
  | Some name, EmptyString => inl unterminated
  | Some name, String a rest =>
      match rest with
      | String b rest' =>
          if is_pair "}" a b then
            match valueByName !! trim name with
            | None => inl (unbound (trim name))
            | Some value =>
                match substitute valueByName None rest' with
                | inr text => inr (Value_render value +:+ text)
                | inl e => inl e
                end
            end
          else substitute valueByName (Some (name +:+ String a EmptyString)) rest
      | EmptyString => inl unterminated
      end
  end.

(** Modelled from the spec: the body of [Template::doSubstitutions], which
    the header only declares.  Every [{{name}}] is replaced by the text of
    the value bound to the trimmed name, text outside the delimiters passes
    through unchanged, and an unbound name or an opener without a closer
    fails with a [render_error]. *)
Definition doSubstitutions {helper : StringHelper} (sourceCode : string)
    (valueByName : ValueByName) : render_error + string :=
  substitute valueByName None sourceCode.

(** Modelled from the spec: the body of [IfSection::computeExpression],
    which the header only declares.  The condition is true when the name is
    a key of the map and its value's [isTrue] holds; the negation flag
    inverts it. *)
Definition computeExpression (m_isNegation : bool) (m_variableName : string)
    (valueByName : ValueByName) : bool :=
  xorb m_isNegation
    match valueByName !! m_variableName with
    | Some value => isTrue value
    | None => false
    end.

(** The two modelled members together. *)
Definition impl {helper : StringHelper} : TemplateImpl :=
  Build_TemplateImpl doSubstitutions computeExpression.

(** [d] occurs in [s]. *)
Definition occurs (d s : string) : Prop :=
  exists a b, s = a +:+ d +:+ b.

(** The same, decided. *)
Fixpoint occursb (d s : string) : bool :=
  String.prefix d s ||
  match s with
  | EmptyString => false
  | String _ s' => occursb d s'
  end.

(** The fragment [s] references the identifier [name]: read from the left,
    [s] is text without an opener, then a tag whose body ends at the first
    closer, then the rest; the tag is the reference, or the rest holds it. *)
Inductive references : string -> string -> Prop :=
| references_here pre body post :
    ~ occurs "{{" (pre +:+ "{") ->
    ~ occurs "}}" (body +:+ "}") ->
    references (pre +:+ "{{" +:+ body +:+ "}}" +:+ post) (trim body)
| references_later pre body post name :
    ~ occurs "{{" (pre +:+ "{") ->
    ~ occurs "}}" (body +:+ "}") ->
    references post name ->
    references (pre +:+ "{{" +:+ body +:+ "}}" +:+ post) name.

End SpecModel.

(** A [toString] to run examples with: integers in decimal, and for a float
    only its class; no example binds a float, and no property below depends
    on the digits of one. *)
Definition example_toString_float (f : spec_float) : string :=
  match f with
  | S754_zero _ => "0"
  | S754_infinity false => "inf"
  | S754_infinity true => "-inf"
  | S754_nan => "nan"
  | S754_finite _ _ _ => "finite"
  end.

Definition example_helper : StringHelper := {|
  toString_int := pretty;
  toString_float := example_toString_float
|}.

Definition example_impl : TemplateImpl := @SpecModel.impl example_helper.

(** ** What the specification says a loop renders *)

(** The in-order concatenation of the children's rendered text, every child
    rendered in [valueByName]; defined when every child returns. *)
Fixpoint children_text (render : ControlSection -> ValueByName -> outcome)
    (sections : list ControlSection) (valueByName : ValueByName)
    : option string :=
  match sections with
  | [] => Some ""
  | section :: rest =>
      match render section valueByName with
      | Returns text _ =>
          match children_text render rest valueByName with
          | Some texts => Some (text +:+ texts)
          | None => None
          end
      | _ => None
      end
  end.

(** The text of iteration [i] of a loop over [varName] entered with the map
    [valueByName]: the children's text with [varName] bound to [IntValue i]
    (empty when some child does not return). *)
Definition iteration_text (render : ControlSection -> ValueByName -> outcome)
    (varName : string) (sections : list ControlSection)
    (valueByName : ValueByName) (i : Z) : string :=
  default "" (children_text render sections (<[varName := IntValue i]> valueByName)).

(** The concatenation of [text i] for [i] from [loopStart] up to but not
    including [loopEnd]. *)
Definition range_text (text : Z -> string) (loopStart loopEnd : Z) : string :=
  foldr String.append "" (text <$> seqZ loopStart (loopEnd - loopStart)).

(** The condition of an [if], in the words of the specification: the name
    is a key of the map and its value is true; inverted under negation. *)
Definition if_condition (m_isNegation : bool) (m_variableName : string)
    (valueByName : ValueByName) : Prop :=
  let bound_and_true :=
    exists value, valueByName !! m_variableName = Some value
                  /\ isTrue value = true in
  if m_isNegation then ~ bound_and_true else bound_and_true.

(** ** Properties of a render function that the loops rely on *)

(** A call that returns hands the map back as it received it. *)
Definition keeps_map (render : ControlSection -> ValueByName -> outcome) : Prop :=
  forall section m text m', render section m = Returns text m' -> m' = m.

(** A call that throws hands back a map that still holds every binding it
    received. *)
Definition throws_above (render : ControlSection -> ValueByName -> outcome)
    : Prop :=
  forall section m e m', render section m = Throws e m' -> m ⊆ m'.

(** [render'] agrees with [render] wherever [render] leaves. *)
Definition extends (render render' : ControlSection -> ValueByName -> outcome)
    : Prop :=
  forall section m, render section m <> OutOfFuel ->
    render' section m = render section m.

(** ** What a tree can bind and what it can substitute *)

(** The loop variables of the sections that [render] can reach.  The
    [sections] of a [Code] are never rendered. *)
Fixpoint loop_vars (section : ControlSection) : gset string :=
  let children :=
    fix children (l : list ControlSection) : gset string :=
      match l with
      | [] => ∅
      | c :: l' => loop_vars c ∪ children l'
      end in
  match section with
  | Root sections => children sections
  | ForSection _ _ varName sections => {[varName]} ∪ children sections
  | Code _ _ => ∅
  | IfSection _ _ sections => children sections
  end.

Fixpoint sections_loop_vars (l : list ControlSection) : gset string :=
  match l with
  | [] => ∅
  | c :: l' => loop_vars c ∪ sections_loop_vars l'
  end.

(** The [templateCode] of the [Code] sections that [render] can reach. *)
Fixpoint code_fragments (section : ControlSection) : list string :=
  let children :=
    fix children (l : list ControlSection) : list string :=
      match l with
      | [] => []
      | c :: l' => (code_fragments c ++ children l')%list
      end in
  match section with
  | Root sections => children sections
  | ForSection _ _ _ sections => children sections
  | Code templateCode _ => [templateCode]
  | IfSection _ _ sections => children sections
  end.

Fixpoint sections_code_fragments (l : list ControlSection) : list string :=
  match l with
  | [] => []
  | c :: l' => (code_fragments c ++ sections_code_fragments l')%list
  end.

(** No loop reuses a name that is bound where the loop is entered: neither
    a name of [bound] nor the variable of a loop around it. *)
Fixpoint well_scoped (section : ControlSection) (bound : gset string)
    {struct section} : bool :=
  match section with
  | Root sections => forallb (fun c => well_scoped c bound) sections
  | ForSection _ _ varName sections =>
      bool_decide (varName ∉ bound)
      && forallb (fun c => well_scoped c ({[varName]} ∪ bound)) sections
  | Code _ _ => true
  | IfSection _ _ sections => forallb (fun c => well_scoped c bound) sections
  end.

(** ** The debug dump *)

Module Dump.

(** The sections with all their data members, the positions included,
    which [print] writes.  [Container] stays out: it does not override
    [render], so no object of it exists. *)
#[warnings="-register-all"]
Inductive Node :=
| Root (sections : list Node)
| ForSection (loopStart loopEnd : Z) (varName : string) (startPos endPos : Z)
    (sections : list Node)
| Code (startPos endPos : Z) (templateCode : string) (sections : list Node)
| IfSection (m_isNegation : bool) (m_variableName : string)
    (sections : list Node).

(** [print( std::string prefix )] of [ForSection], [Code], [Root] and
    [IfSection].  The result is what the call writes to [std::cout], as the
    list of its lines: every statement of the source writes one line and
    ends it with [std::endl].  An [int] is written in decimal. *)
Fixpoint print (prefix : string) (section : Node) {struct section}
    : list string :=
  let children :=
    fix children (l : list Node) : list string :=
      match l with
      | [] => []
      | c :: l' => (print (prefix +:+ "    ") c ++ children l')%list
      end in
  match section with
  | Root sections =>
      ([prefix +:+ "Root {"] ++ children sections ++ [prefix +:+ "}"])%list
  | ForSection loopStart loopEnd varName _ _ sections =>
      ([prefix +:+ "For ( " +:+ varName +:+ " in range(" +:+ pretty loopStart
          +:+ ", " +:+ pretty loopEnd +:+ " ) {"]
       ++ children sections ++ [prefix +:+ "}"])%list
  | Code startPos endPos _ sections =>
      ([prefix +:+ "Code ( " +:+ pretty startPos +:+ ", " +:+ pretty endPos
          +:+ " ) {"]
       ++ children sections ++ [prefix +:+ "}"])%list
  | IfSection m_isNegation m_variableName sections =>
      ([prefix +:+ "if ( " +:+ (if m_isNegation then "not " else "")
          +:+ m_variableName +:+ " ) {"]
       ++ children sections ++ [prefix +:+ "}"])%list
  end.

(** The loop over [sections] in every [print], as a function of its own. *)
Definition print_sections (prefix : string) : list Node -> list string :=
  fix children (l : list Node) : list string :=
    match l with
    | [] => []
    | c :: l' => (print (prefix +:+ "    ") c ++ children l')%list
    end.

(** [ControlSection::print()]: [print("")]. *)
Definition print_top (section : Node) : list string := print "" section.

(** The number of sections of a tree, the [sections] of a [Code] included:
    [print] visits them all. *)
Fixpoint count (section : Node) : nat :=
  let children :=
    fix children (l : list Node) : nat :=
      match l with
      | [] => O
      | c :: l' => (count c + children l')%nat
      end in
  match section with
  | Root sections => S (children sections)
  | ForSection _ _ _ _ _ sections => S (children sections)
  | Code _ _ _ sections => S (children sections)
  | IfSection _ _ sections => S (children sections)
  end.

Fixpoint count_sections (l : list Node) : nat :=
  match l with
  | [] => O
  | c :: l' => (count c + count_sections l')%nat
  end.

End Dump.

(** ** The map as the source has it: names to pointers *)

Module Heap.

(** A state of the memory the render methods work on: the free store (the
    [Value] objects made by [new] and not yet deleted, by address), the map
    [std::map< std::string, Value * >], and the number of [new]s so far. *)
Record state := State {
  heap : gmap positive Value;
  valueByName : gmap string positive;
  news : nat
}.

(** The name to value map a state denotes: every name with the object its
    pointer points to. *)
Definition values (st : state) : ValueByName :=
  omap (fun a => heap st !! a) (valueByName st).

(** Every pointer of the map points to an object of the free store. *)
Definition live (st : state) : Prop :=
  map_Forall (fun _ a => is_Some (heap st !! a)) (valueByName st).

(** What [new] may do: the address of the [k]-th allocation, made with the
    store [h], is any address that is not in use. *)
Definition fresh_addresses (new : nat -> gmap positive Value -> positive)
    : Prop :=
  forall k h, h !! new k h = None.

(** How a call leaves, with the state it leaves. *)
Inductive leaves :=
| Returned (text : string) (st : state)
| Thrown (e : render_error) (st : state)
| Unfinished.

(** What the caller can observe of it through the values: the text or
    the error, and the name to value map. *)
Definition observed (o : leaves) : outcome :=
  match o with
  | Returned text st => Returns text (values st)
  | Thrown e st => Throws e (values st)
  | Unfinished => OutOfFuel
  end.

(** [valueByName[varName] = new IntValue( i );] *)
Definition allocate (new : nat -> gmap positive Value -> positive)
    (varName : string) (value : Value) (st : state) : state :=
  let a := new (news st) (heap st) in
  State (<[a := value]> (heap st)) (<[varName := a]> (valueByName st))
    (S (news st)).

(** [delete valueByName[varName]; valueByName.erase( varName );] *)
Definition release (varName : string) (st : state) : state :=
  State
    match valueByName st !! varName with
    | Some a => delete a (heap st)
    | None => heap st
    end
    (delete varName (valueByName st))
    (news st).

(** The loop over [sections], as [render_sections] above. *)
Fixpoint render_sections (render : ControlSection -> state -> leaves)
    (sections : list ControlSection) (result : string) (st : state) : leaves :=
  match sections with
  | [] => Returned result st
  | section :: rest =>
      match render section st with
      | Returned text st' => render_sections render rest (result +:+ text) st'
      | Thrown e st' => Thrown e st'
      | Unfinished => Unfinished
      end
  end.

(** The loop of [ForSection::render], as [for_loop] above. *)
Fixpoint for_loop (new : nat -> gmap positive Value -> positive)
    (render : ControlSection -> state -> leaves)
    (loopEnd : Z) (varName : string) (sections : list ControlSection)
    (fuel : nat) (i : Z) (result : string) (st : state) : leaves :=
  if (i <? loopEnd)%Z then
    match fuel with
    | O => Unfinished
    | S fuel' =>
        match render_sections render sections result
                (allocate new varName (IntValue i) st) with
        | Returned result' st' =>
            for_loop new render loopEnd varName sections fuel' (i + 1) result'
              (release varName st')
        | Thrown e st' => Thrown e st'
        | Unfinished => Unfinished
        end
    end
  else Returned result st.

(** [ControlSection::render] on the pointers.  The check of [ForSection]
    is [valueByName.find( varName )], on the keys of the map.  The two
    members defined elsewhere reach the objects through the pointers of the
    map only ([Value::render], [Value::isTrue]), so they are given the values
    the map denotes. *)
Fixpoint render {impl : TemplateImpl}
    (new : nat -> gmap positive Value -> positive)
    (fuel : nat) (section : ControlSection) (st : state) : leaves :=
  match fuel with
  | O => Unfinished
  | S fuel' =>
      match section with
      | Root sections => render_sections (render new fuel') sections "" st
      | ForSection loopStart loopEnd varName sections =>
          match valueByName st !! varName with
          | Some _ => Thrown (already_exists varName) st
          | None =>
              for_loop new (render new fuel') loopEnd varName sections fuel'
                loopStart "" st
          end
      | Code templateCode _ =>
          match doSubstitutions templateCode (values st) with
          | inr processed => Returned processed st
          | inl e => Thrown e st
          end
      | IfSection m_isNegation m_variableName sections =>
          if computeExpression m_isNegation m_variableName (values st)
          then render_sections (render new fuel') sections "" st
          else Returned "" st
      end
  end.

(** [st'] has the store and the map of [st]. *)
Definition same_memory (st st' : state) : Prop :=
  heap st' = heap st /\ valueByName st' = valueByName st.

(** A render function on the pointers does what one on the values does. *)
Definition simulates (render : ControlSection -> state -> leaves)
    (render_values : ControlSection -> ValueByName -> outcome) : Prop :=
  forall section st, live st ->
    observed (render section st) = render_values section (values st)
    /\ forall text st', render section st = Returned text st' ->
         same_memory st st'.

End Heap.

(** ** Where a tree substitutes *)

(** [rendered_at section m templateCode m0]: rendering [section] from the
    map [m] reaches a [Code] with the text [templateCode] while the map is
    [m0], that is [m] with the variables of the loops around that [Code]
    bound to indices of their ranges. *)
Inductive rendered_at {impl : TemplateImpl}
    : ControlSection -> ValueByName -> string -> ValueByName -> Prop :=
| rendered_at_Code templateCode sections m :
    rendered_at (Code templateCode sections) m templateCode m
| rendered_at_Root sections c m templateCode m0 :
    c ∈ sections -> rendered_at c m templateCode m0 ->
    rendered_at (Root sections) m templateCode m0
| rendered_at_ForSection loopStart loopEnd varName sections c i m
    templateCode m0 :
    c ∈ sections -> (loopStart <= i < loopEnd)%Z ->
    rendered_at c (<[varName := IntValue i]> m) templateCode m0 ->
    rendered_at (ForSection loopStart loopEnd varName sections) m templateCode m0
| rendered_at_IfSection neg name sections c m templateCode m0 :
    c ∈ sections -> computeExpression neg name m = true ->
    rendered_at c m templateCode m0 ->
    rendered_at (IfSection neg name sections) m templateCode m0.

(** Two allocators and two states to run examples with.  The states
    denote the same values with different stores and pointers; the second
    store also holds an object no name points to. *)
Definition example_new1 (k : nat) (h : gmap positive Value) : positive :=
  fresh (dom h).

Definition example_new2 (k : nat) (h : gmap positive Value) : positive :=
  fresh ({[Pos.of_succ_nat k]} ∪ dom h).

Definition example_state1 : Heap.state :=
  Heap.State
    (<[1%positive := IntValue 1]> (<[5%positive := StringValue "t"]> ∅))
    (<["a" := 1%positive]> (<["b" := 5%positive]> ∅))
    0.

Definition example_state2 : Heap.state :=
  Heap.State
    (<[2%positive := StringValue "t"]>
       (<[3%positive := IntValue 1]> (<[9%positive := IntValue 0]> ∅)))
    (<["a" := 3%positive]> (<["b" := 2%positive]> ∅))
    4.

(** * Proofs *)

Lemma append_nil_r (s : string) : s +:+ "" = s.
Proof.
  induction s as [|a s IH]; [reflexivity|].
  change (String a (s +:+ "") = String a s). now rewrite IH.
Qed.

Lemma append_assoc (s1 s2 s3 : string) : (s1 +:+ s2) +:+ s3 = s1 +:+ s2 +:+ s3.
Proof.
  induction s1 as [|a s1 IH]; [reflexivity|].
  change (String a ((s1 +:+ s2) +:+ s3) = String a (s1 +:+ s2 +:+ s3)).
  now rewrite IH.
Qed.

Lemma range_text_empty text loopStart loopEnd :
  (loopEnd <= loopStart)%Z -> range_text text loopStart loopEnd = "".
Proof.
  intros Hle. unfold range_text. rewrite seqZ_nil by lia. reflexivity.
Qed.

Lemma range_text_first text loopStart loopEnd :
  (loopStart < loopEnd)%Z ->
  range_text text loopStart loopEnd
  = text loopStart +:+ range_text text (loopStart + 1) loopEnd.
Proof.
  intros Hlt. unfold range_text. rewrite seqZ_cons by lia. simpl.
  replace (Z.succ loopStart) with (loopStart + 1)%Z by lia.
  replace (Z.pred (loopEnd - loopStart)) with (loopEnd - (loopStart + 1))%Z by lia.
  reflexivity.
Qed.

Section Loops.

Variable render : ControlSection -> ValueByName -> outcome.
Hypothesis render_keeps : keeps_map render.

(** The inner loop returns exactly when every child returns, with the
    children's texts appended to [result] and the map as it was. *)
Lemma render_sections_text sections : forall result m text m',
  render_sections render sections result m = Returns text m'
  <-> m' = m /\ exists body,
        children_text render sections m = Some body /\ text = result +:+ body.
Proof.
  induction sections as [|c rest IH]; intros result m text m'; simpl.
  - split.
    + intros [= <- <-]. split; [reflexivity|]. exists "".
      now rewrite append_nil_r.
    + intros [-> (body & [= <-] & ->)]. now rewrite append_nil_r.
  - destruct (render c m) as [t1 m1| |] eqn:Hc.
    + apply render_keeps in Hc as ->. rewrite IH. split.
      * intros [-> (body & Hb & ->)]. split; [reflexivity|].
        rewrite Hb. exists (t1 +:+ body). now rewrite append_assoc.
      * intros [-> (body & Hb & ->)]. split; [reflexivity|].
        destruct (children_text render rest m) as [body'|]; [|discriminate].
        injection Hb as <-. exists body'. now rewrite append_assoc.
    + split; [discriminate | intros [_ (body & ? & _)]; discriminate].
    + split; [discriminate | intros [_ (body & ? & _)]; discriminate].
Qed.

Variables (loopEnd : Z) (varName : string) (sections : list ControlSection).
Variable m : ValueByName.
Hypothesis unbound : m !! varName = None.

(** One iteration: the body is rendered with the variable bound, and the
    loop goes on from [m], where the variable is unbound again. *)
Lemma for_loop_step fuel i result body :
  (i < loopEnd)%Z ->
  children_text render sections (<[varName := IntValue i]> m) = Some body ->
  for_loop render loopEnd varName sections (S fuel) i result m
  = for_loop render loopEnd varName sections fuel (i + 1) (result +:+ body) m.
Proof.
  intros Hlt Hbody. simpl.
  destruct (Z.ltb_spec i loopEnd) as [_|]; [|lia].
  assert (render_sections render sections result (<[varName := IntValue i]> m)
          = Returns (result +:+ body) (<[varName := IntValue i]> m)) as ->.
  { apply render_sections_text. split; [reflexivity|]. now exists body. }
  now rewrite delete_insert_id.
Qed.

Lemma for_loop_done fuel i result :
  (loopEnd <= i)%Z ->
  for_loop render loopEnd varName sections fuel i result m = Returns result m.
Proof.
  intros Hle. destruct fuel; simpl;
    destruct (Z.ltb_spec i loopEnd); (lia || reflexivity).
Qed.

Lemma for_loop_range text : forall fuel i result,
  (forall j, (i <= j < loopEnd)%Z ->
     children_text render sections (<[varName := IntValue j]> m) = Some (text j)) ->
  (Z.to_nat (loopEnd - i) <= fuel)%nat ->
  for_loop render loopEnd varName sections fuel i result m
  = Returns (result +:+ range_text text i loopEnd) m.
Proof.
  induction fuel as [|fuel IH]; intros i result Hbody Hfuel.
  - rewrite for_loop_done by lia.
    rewrite range_text_empty by lia. now rewrite append_nil_r.
  - destruct (Z.lt_ge_cases i loopEnd) as [Hlt|Hge].
    + rewrite (for_loop_step _ _ _ (text i)) by (try apply Hbody; lia).
      rewrite IH by (try lia; intros j Hj; apply Hbody; lia).
      rewrite (range_text_first text i) by lia. now rewrite append_assoc.
    + rewrite for_loop_done by lia.
      rewrite range_text_empty by lia. now rewrite append_nil_r.
Qed.

Lemma for_loop_returns_inv : forall fuel i result text m',
  for_loop render loopEnd varName sections fuel i result m = Returns text m' ->
  m' = m
  /\ (forall j, (i <= j < loopEnd)%Z ->
        children_text render sections (<[varName := IntValue j]> m)
        = Some (iteration_text render varName sections m j))
  /\ text = result +:+ range_text (iteration_text render varName sections m) i loopEnd.
Proof.
  induction fuel as [|fuel IH]; intros i result text m' Hret;
    destruct (Z.lt_ge_cases i loopEnd) as [Hlt|Hge].
  - simpl in Hret. destruct (Z.ltb_spec i loopEnd); [discriminate | lia].
  - rewrite for_loop_done in Hret by lia. injection Hret as <- <-.
    rewrite range_text_empty by lia. rewrite append_nil_r.
    repeat split. intros j Hj. lia.
  - simpl in Hret. destruct (Z.ltb_spec i loopEnd) as [_|]; [|lia].
    destruct (render_sections render sections result (<[varName := IntValue i]> m))
      as [result' m1| |] eqn:Hsec; try discriminate.
    apply render_sections_text in Hsec as [-> (body & Hbody & ->)].
    rewrite delete_insert_id in Hret by exact unbound.
    apply IH in Hret as (-> & Hrest & ->).
    assert (iteration_text render varName sections m i = body) as Hi
      by (unfold iteration_text; now rewrite Hbody).
    repeat split.
    + intros j Hj. destruct (Z.eq_dec j i) as [->|Hne].
      * now rewrite Hi.
      * apply Hrest. lia.
    + rewrite (range_text_first _ i) by lia.
      rewrite Hi. now rewrite append_assoc.
  - rewrite for_loop_done in Hret by lia. injection Hret as <- <-.
    rewrite range_text_empty by lia. rewrite append_nil_r.
    repeat split. intros j Hj. lia.
Qed.

End Loops.

(** ** The loops under a render function with more fuel *)

Section Extends.

Variables render render' : ControlSection -> ValueByName -> outcome.
Hypothesis more : extends render render'.

Lemma render_sections_extends sections : forall result m,
  render_sections render sections result m <> OutOfFuel ->
  render_sections render' sections result m
  = render_sections render sections result m.
Proof.
  induction sections as [|c rest IH]; intros result m Hfin; simpl in *;
    [reflexivity|].
  destruct (render c m) as [t1 m1| |] eqn:Hc.
  - rewrite more, Hc by congruence. now apply IH.
  - rewrite more, Hc by congruence. reflexivity.
  - congruence.
Qed.

Lemma for_loop_extends loopEnd varName sections : forall fuel fuel' i result m,
  (fuel <= fuel')%nat ->
  for_loop render loopEnd varName sections fuel i result m <> OutOfFuel ->
  for_loop render' loopEnd varName sections fuel' i result m
  = for_loop render loopEnd varName sections fuel i result m.
Proof.
  induction fuel as [|fuel IH]; intros fuel' i result m Hle Hfin.
  - simpl in Hfin. destruct (Z.ltb_spec i loopEnd) as [|Hge]; [congruence|].
    destruct fuel'; simpl; destruct (Z.ltb_spec i loopEnd); (lia || reflexivity).
  - destruct fuel' as [|fuel']; [lia|]. simpl in *.
    destruct (i <? loopEnd)%Z; [|reflexivity].
    destruct (render_sections render sections result (<[varName := IntValue i]> m))
      as [result' m1| |] eqn:Hsec.
    + rewrite render_sections_extends, Hsec by congruence.
      apply IH; [lia | assumption].
    + rewrite render_sections_extends, Hsec by congruence. reflexivity.
    + congruence.
Qed.

End Extends.

(** ** The loops leave when the children do *)

Section Finishes.

Variable render : ControlSection -> ValueByName -> outcome.
Variable sections : list ControlSection.
Hypothesis children_finish :
  forall c, c ∈ sections -> forall m, render c m <> OutOfFuel.

Lemma render_sections_finishes : forall result m,
  render_sections render sections result m <> OutOfFuel.
Proof.
  revert children_finish.
  induction sections as [|c rest IH]; intros Hch result m; simpl; [discriminate|].
  destruct (render c m) as [t1 m1| |] eqn:Hc.
  - apply IH. intros c' Hc'. apply Hch. now right.
  - discriminate.
  - exfalso. apply (Hch c (list_elem_of_here _ _) m Hc).
Qed.

Lemma for_loop_finishes loopEnd varName : forall fuel i result m,
  (Z.to_nat (loopEnd - i) <= fuel)%nat ->
  for_loop render loopEnd varName sections fuel i result m <> OutOfFuel.
Proof.
  induction fuel as [|fuel IH]; intros i result m Hfuel; simpl;
    destruct (Z.ltb_spec i loopEnd) as [Hlt|Hge]; try discriminate; [lia|].
  destruct (render_sections render sections result (<[varName := IntValue i]> m))
    as [result' m1| |] eqn:Hsec.
  - apply IH. lia.
  - discriminate.
  - exfalso. revert Hsec. apply render_sections_finishes.
Qed.

End Finishes.

Lemma sections_bound_elem c sections :
  c ∈ sections -> (fuel_bound c <= sections_bound sections)%nat.
Proof.
  induction 1 as [c l|c c' l _ IH]; simpl; lia.
Qed.

Lemma fuel_bound_Root sections :
  fuel_bound (Root sections) = S (sections_bound sections).
Proof. reflexivity. Qed.

Lemma fuel_bound_ForSection loopStart loopEnd varName sections :
  fuel_bound (ForSection loopStart loopEnd varName sections)
  = S (Nat.max (Z.to_nat (loopEnd - loopStart)) (sections_bound sections)).
Proof. reflexivity. Qed.

Lemma fuel_bound_IfSection neg name sections :
  fuel_bound (IfSection neg name sections) = S (sections_bound sections).
Proof. reflexivity. Qed.

(** ** The render function itself *)

Section Render.

Context {impl : TemplateImpl}.

Lemma render_keeps_map fuel : keeps_map (render fuel).
Proof.
  induction fuel as [|fuel IH]; intros section m text m' Hret; [discriminate|].
  destruct section as [sections|loopStart loopEnd varName sections
                      |templateCode sections|neg name sections]; simpl in Hret.
  - now apply (render_sections_text _ IH) in Hret as [-> _].
  - destruct (m !! varName) eqn:Hm; [discriminate|].
    now apply (for_loop_returns_inv _ IH _ _ _ _ Hm) in Hret as [-> _].
  - destruct (doSubstitutions templateCode m); congruence.
  - destruct (computeExpression neg name m); [|congruence].
    now apply (render_sections_text _ IH) in Hret as [-> _].
Qed.

Lemma render_extends : forall fuel fuel',
  (fuel <= fuel')%nat -> extends (render fuel) (render fuel').
Proof.
  induction fuel as [|fuel IH]; intros fuel' Hle section m Hfin;
    [now contradict Hfin|].
  destruct fuel' as [|fuel']; [lia|].
  assert (extends (render fuel) (render fuel')) as Hext by (apply IH; lia).
  destruct section as [sections|loopStart loopEnd varName sections
                      |templateCode sections|neg name sections]; simpl in *.
  - now apply render_sections_extends.
  - destruct (m !! varName); [reflexivity|].
    apply for_loop_extends; [assumption | lia | assumption].
  - reflexivity.
  - destruct (computeExpression neg name m); [|reflexivity].
    now apply render_sections_extends.
Qed.

Lemma render_finishes : forall fuel section m,
  (fuel_bound section <= fuel)%nat -> render fuel section m <> OutOfFuel.
Proof.
  induction fuel as [|fuel IH]; intros section m Hfuel.
  - destruct section; simpl in Hfuel; lia.
  - assert (forall sections, (sections_bound sections <= fuel)%nat ->
              forall c, c ∈ sections -> forall m, render fuel c m <> OutOfFuel)
      as Hch.
    { intros sections Hb c Hc m0. apply IH.
      pose proof (sections_bound_elem c sections Hc). lia. }
    destruct section as [sections|loopStart loopEnd varName sections
                        |templateCode sections|neg name sections].
    + rewrite fuel_bound_Root in Hfuel. simpl.
      apply render_sections_finishes, Hch. lia.
    + rewrite fuel_bound_ForSection in Hfuel. simpl.
      destruct (m !! varName); [discriminate|].
      apply for_loop_finishes; [apply Hch|]; lia.
    + simpl. destruct (doSubstitutions templateCode m); discriminate.
    + rewrite fuel_bound_IfSection in Hfuel. simpl.
      destruct (computeExpression neg name m); [|discriminate].
      apply render_sections_finishes, Hch. lia.
Qed.

(** A loop entered with its variable unbound and a non-empty range cannot
    pass its first iteration on one unit of fuel. *)
Lemma ForSection_iteration_needs_fuel loopStart loopEnd varName sections m :
  m !! varName = None -> (loopStart < loopEnd)%Z ->
  render 1 (ForSection loopStart loopEnd varName sections) m = OutOfFuel.
Proof.
  intros Hm Hlt. simpl. rewrite Hm. simpl.
  destruct (Z.ltb_spec loopStart loopEnd); [reflexivity | lia].
Qed.

(** C1: a [ForSection] entered with [varName] unbound returns the
    concatenation, for [i] from [loopStart] up to but not including
    [loopEnd], of the children's text rendered with [varName] bound to
    [IntValue i]; every iteration hands the loop the map with [varName]
    unbound again. The three parts: the value returned when the children
    return; that a returned value is always of this form; and the step of one
    iteration. *)
Theorem ForSection_render_concatenates fuel loopStart loopEnd varName sections
    (m : ValueByName) :
  m !! varName = None ->
  (Z.to_nat (loopEnd - loopStart) <= fuel)%nat ->
  (forall text : Z -> string,
     (forall i, (loopStart <= i < loopEnd)%Z ->
        children_text (render fuel) sections (<[varName := IntValue i]> m)
        = Some (text i)) ->
     render (S fuel) (ForSection loopStart loopEnd varName sections) m
     = Returns (range_text text loopStart loopEnd) m)
  /\ (forall text m',
        render (S fuel) (ForSection loopStart loopEnd varName sections) m
        = Returns text m' ->
        m' = m
        /\ (forall i, (loopStart <= i < loopEnd)%Z ->
              children_text (render fuel) sections (<[varName := IntValue i]> m)
              = Some (iteration_text (render fuel) varName sections m i))
        /\ text = range_text (iteration_text (render fuel) varName sections m)
                    loopStart loopEnd)
  /\ (forall k i result body,
        (i < loopEnd)%Z ->
        children_text (render fuel) sections (<[varName := IntValue i]> m)
        = Some body ->
        for_loop (render fuel) loopEnd varName sections (S k) i result m
        = for_loop (render fuel) loopEnd varName sections k (i + 1)
            (result +:+ body) m).
Proof.
  intros Hm Hfuel. pose proof (render_keeps_map fuel) as Hkeep.
  split; [|split].
  - intros text Hbody. simpl. rewrite Hm.
    now rewrite (for_loop_range _ Hkeep _ _ _ _ Hm text).
  - intros text m' Hret. simpl in Hret. rewrite Hm in Hret.
    now apply (for_loop_returns_inv _ Hkeep _ _ _ _ Hm) in Hret.
  - intros k i result body Hlt Hbody.
    now apply for_loop_step.
Qed.

(** C2, as amended: when [ForSection::render] returns, the map is the one
    it was called with and the loop variable is absent from it; when the loop
    variable is bound on entry, the call throws and the map, with that
    binding, is the one it was called with. *)
Theorem ForSection_render_restores fuel loopStart loopEnd varName sections
    (m : ValueByName) :
  (forall text m',
     render fuel (ForSection loopStart loopEnd varName sections) m
     = Returns text m' ->
     m' = m /\ m' !! varName = None)
  /\ (is_Some (m !! varName) ->
      render (S fuel) (ForSection loopStart loopEnd varName sections) m
      = Throws (already_exists varName) m).
Proof.
  split.
  - intros text m' Hret.
    pose proof (render_keeps_map fuel _ _ _ _ Hret) as ->.
    split; [reflexivity|].
    destruct fuel as [|fuel]; [discriminate|]. simpl in Hret.
    destruct (m !! varName); [discriminate | reflexivity].
  - intros [v Hv]. simpl. now rewrite Hv.
Qed.

(** C3: a [ForSection] whose loop variable is bound on entry never
    returns; it throws a [render_error] and the binding found on entry is
    still in the map, neither shadowed nor overwritten. *)
Theorem ForSection_render_bound_fails fuel loopStart loopEnd varName sections
    (m : ValueByName) (v : Value) :
  m !! varName = Some v ->
  (forall fuel' text m',
     render fuel' (ForSection loopStart loopEnd varName sections) m
     <> Returns text m')
  /\ exists e m',
       render (S fuel) (ForSection loopStart loopEnd varName sections) m
       = Throws e m'
       /\ m' !! varName = Some v.
Proof.
  intros Hv. split.
  - intros [|fuel'] text m'; simpl; [discriminate|]. now rewrite Hv.
  - exists (already_exists varName), m. simpl. now rewrite Hv.
Qed.

(** C5: a [ForSection] with [loopStart >= loopEnd], entered with its loop
    variable unbound, returns the empty string whatever its children are,
    and leaves the map as it was. *)
Theorem ForSection_render_empty_range fuel loopStart loopEnd varName sections
    (m : ValueByName) :
  (loopStart >= loopEnd)%Z ->
  m !! varName = None ->
  render (S fuel) (ForSection loopStart loopEnd varName sections) m
  = Returns "" m.
Proof.
  intros Hge Hm. simpl. rewrite Hm.
  destruct fuel; simpl;
    destruct (Z.ltb_spec loopStart loopEnd); (lia || reflexivity).
Qed.

(** C8: rendering terminates. Every call of [render] on a tree leaves, by
    return or by throw, within the fuel [fuel_bound] computes from the size
    of the tree and the lengths of its loop ranges; more fuel changes
    nothing. *)
Theorem render_terminates section (m : ValueByName) fuel :
  (fuel_bound section <= fuel)%nat ->
  render fuel section m <> OutOfFuel
  /\ render fuel section m = render (fuel_bound section) section m.
Proof.
  intros Hfuel. split.
  - now apply render_finishes.
  - apply (render_extends _ _ Hfuel). now apply render_finishes.
Qed.

(** C9: when the loop variable is bound on entry, [ForSection::render]
    throws before any iteration, whatever the range is (an empty one
    included): one unit of fuel, which no iteration can be run on, is
    enough, and the throw carries no text and the map as it was. *)
Theorem ForSection_collision_atomic loopStart loopEnd varName sections
    (m : ValueByName) :
  is_Some (m !! varName) ->
  render 1 (ForSection loopStart loopEnd varName sections) m
  = Throws (already_exists varName) m
  /\ forall fuel,
       render (S fuel) (ForSection loopStart loopEnd varName sections) m
       = Throws (already_exists varName) m.
Proof.
  intros [v Hv]. split; [|intros fuel]; simpl; now rewrite Hv.
Qed.

(** Two amounts of fuel on which a call leaves give the same outcome. *)
Lemma render_any_fuel fuel1 fuel2 section (m : ValueByName) :
  render fuel1 section m <> OutOfFuel ->
  render fuel2 section m <> OutOfFuel ->
  render fuel1 section m = render fuel2 section m.
Proof.
  intros Hfin1 Hfin2.
  destruct (Nat.le_ge_cases fuel1 fuel2) as [Hle|Hle].
  - symmetry. now apply (render_extends _ _ Hle).
  - now apply (render_extends _ _ Hle).
Qed.

End Render.

(** C6: [IntValue::isTrue] holds exactly for a nonzero integer,
    [FloatValue::isTrue] exactly for a float that does not compare equal to
    [0.0] (anything but the two zeros; a NaN counts as true), and
    [StringValue::isTrue] exactly for a non-empty string. *)
Theorem isTrue_by_variant :
  (forall i : Z, isTrue (IntValue i) = true <-> i <> 0%Z)
  /\ (forall f : spec_float,
        isTrue (FloatValue f) = true <-> forall s, f <> S754_zero s)
  /\ (forall s : string, isTrue (StringValue s) = true <-> s <> "").
Proof.
  split; [|split].
  - intros i. simpl. destruct (Z.eqb_spec i 0); simpl; split; congruence.
  - intros [s|s| |s mant e]; simpl.
    + split; [discriminate | intros Hne; now destruct (Hne s)].
    + destruct s; split; (reflexivity || discriminate).
    + split; (reflexivity || discriminate).
    + destruct s; split; (reflexivity || discriminate).
  - intros [|a s]; simpl; split; congruence.
Qed.

(** ** The substitution engine and the condition of [if] *)

Section SpecModelFacts.

Context {helper : StringHelper}.
Variable m : ValueByName.

Import SpecModel.

Lemma append_cons a (s t : string) : String a s +:+ t = String a (s +:+ t).
Proof. reflexivity. Qed.

Lemma append_nil_l (s : string) : "" +:+ s = s.
Proof. reflexivity. Qed.

(** Expose the leading characters of a concatenation. *)
Ltac expose := rewrite ?append_cons, ?append_nil_l in *.

Lemma occurs_cons d a s : occurs d s -> occurs d (String a s).
Proof. intros (x & y & ->). now exists (String a x), y. Qed.

Lemma is_pair_true c a b : is_pair c a b = true <-> a = c /\ b = c.
Proof.
  unfold is_pair. rewrite andb_true_iff, !Ascii.eqb_eq. reflexivity.
Qed.

Lemma prefix_append d : forall b, String.prefix d (d +:+ b) = true.
Proof.
  induction d as [|c d IH]; intros b; [now destruct b|].
  rewrite append_cons. simpl. now destruct (ascii_dec c c).
Qed.

Lemma occursb_eq d s :
  occursb d s
  = String.prefix d s
    || match s with EmptyString => false | String _ s' => occursb d s' end.
Proof. now destruct s. Qed.

Lemma occursb_complete d s : occurs d s -> occursb d s = true.
Proof.
  intros (a & b & ->). induction a as [|c a IH]; rewrite occursb_eq.
  - now rewrite append_nil_l, prefix_append.
  - rewrite append_cons, IH. apply orb_true_r.
Qed.

Lemma not_occurs d s : occursb d s = false -> ~ occurs d s.
Proof. intros Hb Hocc. apply occursb_complete in Hocc. congruence. Qed.

Lemma occurs_pair_here (c : ascii) s :
  occurs (String c (String c "")) (String c (String c s)).
Proof. now exists "", s. Qed.

(** The two equations of the scan on a string of two characters or more. *)
Lemma substitute_outside_eq a b rest :
  substitute m None (String a (String b rest))
  = if is_pair "{" a b then substitute m (Some "") rest
    else match substitute m None (String b rest) with
         | inr text => inr (String a text)
         | inl e => inl e
         end.
Proof. reflexivity. Qed.

Lemma substitute_inside_eq name a b rest :
  substitute m (Some name) (String a (String b rest))
  = if is_pair "}" a b then
      match m !! trim name with
      | None => inl (unbound (trim name))
      | Some value =>
          match substitute m None rest with
          | inr text => inr (Value_render value +:+ text)
          | inl e => inl e
          end
      end
    else substitute m (Some (name +:+ String a "")) (String b rest).
Proof. reflexivity. Qed.

(** Inside a tag that is never closed, the scan fails. *)
Lemma substitute_inside_open rest :
  ~ occurs "}}" rest ->
  forall name, exists e, substitute m (Some name) rest = inl e.
Proof.
  induction rest as [|a rest IH]; intros Hno name; [now eexists|].
  destruct rest as [|b rest']; [now eexists|].
  rewrite substitute_inside_eq. destruct (is_pair "}" a b) eqn:Hp.
  - apply is_pair_true in Hp as [-> ->]. destruct Hno. apply occurs_pair_here.
  - apply IH. intros Hocc. apply Hno. now apply occurs_cons.
Qed.

(** Outside a tag, text without an opener passes through. *)
Lemma substitute_outside pre rest :
  ~ occurs "{{" (pre +:+ "{") ->
  substitute m None (pre +:+ "{{" +:+ rest)
  = match substitute m (Some "") rest with
    | inr text => inr (pre +:+ text)
    | inl e => inl e
    end.
Proof.
  induction pre as [|a pre IH]; intros Hno.
  - expose. rewrite substitute_outside_eq.
    now destruct (substitute m (Some "") rest).
  - assert (~ occurs "{{" (pre +:+ "{")) as Hno'
      by (intros Hocc; apply Hno; rewrite append_cons; now apply occurs_cons).
    specialize (IH Hno').
    destruct pre as [|b pre']; expose; rewrite substitute_outside_eq.
    + destruct (is_pair "{" a "{") eqn:Hp.
      * apply is_pair_true in Hp as [-> _]. destruct Hno. apply occurs_pair_here.
      * rewrite IH. now destruct (substitute m (Some "") rest).
    + destruct (is_pair "{" a b) eqn:Hp.
      * apply is_pair_true in Hp as [-> ->]. destruct Hno. apply occurs_pair_here.
      * rewrite IH. now destruct (substitute m (Some "") rest).
Qed.

(** Inside a tag, the body runs up to the first closer, where the name is
    looked up. *)
Lemma substitute_inside body post :
  ~ occurs "}}" (body +:+ "}") ->
  forall name,
  substitute m (Some name) (body +:+ "}}" +:+ post)
  = match m !! trim (name +:+ body) with
    | None => inl (unbound (trim (name +:+ body)))
    | Some value =>
        match substitute m None post with
        | inr text => inr (Value_render value +:+ text)
        | inl e => inl e
        end
    end.
Proof.
  induction body as [|a body IH]; intros Hno name.
  - rewrite append_nil_r. expose. now rewrite substitute_inside_eq.
  - assert (~ occurs "}}" (body +:+ "}")) as Hno'
      by (intros Hocc; apply Hno; rewrite append_cons; now apply occurs_cons).
    specialize (IH Hno').
    replace (name +:+ String a body) with ((name +:+ String a "") +:+ body)
      by now rewrite append_assoc.
    rewrite <- IH.
    destruct body as [|b body']; expose; rewrite substitute_inside_eq.
    + destruct (is_pair "}" a "}") eqn:Hp; [|reflexivity].
      apply is_pair_true in Hp as [-> _]. destruct Hno. apply occurs_pair_here.
    + destruct (is_pair "}" a b) eqn:Hp; [|reflexivity].
      apply is_pair_true in Hp as [-> ->]. destruct Hno. apply occurs_pair_here.
Qed.

Lemma substitute_references sourceCode name :
  references sourceCode name -> m !! name = None ->
  exists e, substitute m None sourceCode = inl e.
Proof.
  induction 1 as [pre body post Hpre Hbody|pre body post name Hpre Hbody _ IH];
    intros Hm; rewrite substitute_outside, substitute_inside by assumption;
    rewrite append_nil_l.
  - rewrite Hm. now eexists.
  - destruct (m !! trim body); [|now eexists].
    destruct (IH Hm) as [e ->]. now eexists.
Qed.

Lemma occurs_open_brace s : occurs "}}" (String "{" s) -> occurs "}}" s.
Proof.
  intros ([|c x] & y & Heq).
  - discriminate.
  - rewrite append_cons in Heq. injection Heq as _ ->. now exists x, y.
Qed.

(** An opener that no closer follows makes the scan fail, wherever the
    opener stands and whatever the scan was doing when it reached it. *)
Lemma substitute_unterminated rest :
  ~ occurs "}}" rest ->
  forall n pre, (String.length pre <= n)%nat ->
  forall inside, exists e, substitute m inside (pre +:+ "{{" +:+ rest) = inl e.
Proof.
  intros Hno.
  assert (~ occurs "}}" (String "{" rest)) as Hno1
    by (intros Hocc; now apply Hno, occurs_open_brace).
  assert (forall inside, exists e,
            substitute m inside (String "{" (String "{" rest)) = inl e) as Hbase.
  { intros [name|].
    - rewrite substitute_inside_eq. now apply substitute_inside_open.
    - rewrite substitute_outside_eq. now apply substitute_inside_open. }
  induction n as [|n IH]; intros pre Hlen inside.
  - destruct pre; [expose; apply Hbase | simpl in Hlen; lia].
  - destruct pre as [|a pre]; [expose; apply Hbase|]. simpl in Hlen.
    assert (forall inside', exists e,
              substitute m inside' (pre +:+ "{{" +:+ rest) = inl e)
      as Htail by (intros inside'; apply IH; lia).
    destruct pre as [|b pre'].
    + expose. destruct inside as [name|].
      * rewrite substitute_inside_eq. destruct (is_pair "}" a "{") eqn:Hp.
        -- apply is_pair_true in Hp as [_ Hp]. discriminate.
        -- apply Hbase.
      * rewrite substitute_outside_eq. destruct (is_pair "{" a "{").
        -- now apply substitute_inside_open.
        -- destruct (Hbase None) as [e ->]. now eexists.
    + assert (forall inside', exists e,
                substitute m inside' (pre' +:+ "{{" +:+ rest) = inl e)
        as Htail2 by (intros inside'; apply IH; simpl in Hlen; lia).
      expose. destruct inside as [name|].
      * rewrite substitute_inside_eq. destruct (is_pair "}" a b).
        -- destruct (m !! trim name); [|now eexists].
           destruct (Htail2 None) as [e ->]. now eexists.
        -- apply Htail.
      * rewrite substitute_outside_eq. destruct (is_pair "{" a b).
        -- apply Htail2.
        -- destruct (Htail None) as [e ->]. now eexists.
Qed.

Lemma computeExpression_condition neg name :
  computeExpression neg name m = true <-> if_condition neg name m.
Proof.
  unfold computeExpression, if_condition.
  destruct neg, (m !! name) as [v|] eqn:Hv; simpl.
  - destruct (isTrue v) eqn:Ht; simpl; split; try discriminate.
    + intros Hneg. destruct Hneg. now exists v.
    + intros _ (v' & [= <-] & Ht'). congruence.
    + reflexivity.
  - split; [|reflexivity]. intros _ (v' & Hv' & _). discriminate.
  - split.
    + intros Ht. now exists v.
    + intros (v' & [= <-] & Ht). exact Ht.
  - split; [discriminate|]. intros (v' & Hv' & _). discriminate.
Qed.

(** C4: an [IfSection] renders the in-order concatenation of its
    children's text when its condition holds and the empty string otherwise;
    the condition is that the name is a key of the map and its value is
    true, inverted under negation; an absent name counts as false, so a
    plain [if] renders empty and [if not] renders its body, without error. *)
Theorem IfSection_render_by_condition fuel neg name sections :
  (if_condition neg name m ->
     render (impl := impl) (S fuel) (IfSection neg name sections) m
     = render_sections (render (impl := impl) fuel) sections "" m
     /\ forall body,
          children_text (render (impl := impl) fuel) sections m = Some body ->
          render (impl := impl) (S fuel) (IfSection neg name sections) m
          = Returns body m)
  /\ (~ if_condition neg name m ->
      render (impl := impl) (S fuel) (IfSection neg name sections) m
      = Returns "" m)
  /\ (m !! name = None ->
      render (impl := impl) (S fuel) (IfSection false name sections) m
      = Returns "" m
      /\ render (impl := impl) (S fuel) (IfSection true name sections) m
         = render_sections (render (impl := impl) fuel) sections "" m).
Proof.
  split; [|split].
  - intros Hcond. apply computeExpression_condition in Hcond.
    assert (render (impl := impl) (S fuel) (IfSection neg name sections) m
            = render_sections (render (impl := impl) fuel) sections "" m) as Heq
      by (simpl; now rewrite Hcond).
    split; [exact Heq|]. intros body Hbody. rewrite Heq.
    apply (render_sections_text _ (render_keeps_map fuel)).
    split; [reflexivity|]. now exists body.
  - intros Hcond. simpl.
    destruct (computeExpression neg name m) eqn:Hc; [|reflexivity].
    now apply computeExpression_condition in Hc.
  - intros Hm. simpl. unfold computeExpression. now rewrite Hm.
Qed.

(** C7: substitution, as [Code::render] invokes it, fails with a
    [render_error] when the fragment references an identifier that the map
    does not bind, and when an opener is followed by no closer; the fragment
    [{{missing}}] fails under the empty map. *)
Theorem doSubstitutions_fails :
  (forall sourceCode name,
     references sourceCode name -> m !! name = None ->
     exists e, doSubstitutions sourceCode m = inl e
               /\ forall fuel sections,
                    render (impl := impl) (S fuel) (Code sourceCode sections) m
                    = Throws e m)
  /\ (forall pre rest,
        ~ occurs "}}" rest ->
        exists e, doSubstitutions (pre +:+ "{{" +:+ rest) m = inl e
                  /\ forall fuel sections,
                       render (impl := impl) (S fuel)
                         (Code (pre +:+ "{{" +:+ rest) sections) m
                       = Throws e m)
  /\ (forall fuel sections,
        render (impl := impl) (S fuel) (Code "{{missing}}" sections) ∅
        = Throws (unbound "missing") ∅).
Proof.
  split; [|split].
  - intros sourceCode name Href Hm.
    destruct (substitute_references _ _ Href Hm) as [e He].
    exists e. split; [exact He|]. intros fuel sections. simpl.
    unfold doSubstitutions. now rewrite He.
  - intros pre rest Hno.
    destruct (substitute_unterminated rest Hno _ pre (le_n _) None) as [e He].
    exists e. split; [exact He|]. intros fuel sections. simpl.
    unfold doSubstitutions. now rewrite He.
  - intros fuel sections. reflexivity.
Qed.

End SpecModelFacts.

(** ** A body that throws *)

Section Throws.

Context {impl : TemplateImpl}.

Lemma render_sections_throws_above render sections :
  keeps_map render -> throws_above render ->
  forall result m e m',
  render_sections render sections result m = Throws e m' -> m ⊆ m'.
Proof.
  intros Hkeep Hthrow.
  induction sections as [|c rest IH]; intros result m e m' Hret; simpl in Hret;
    [discriminate|].
  destruct (render c m) as [t1 m1|e1 m1|] eqn:Hc; [| |discriminate].
  - apply Hkeep in Hc as ->. now apply IH in Hret.
  - injection Hret as <- <-. now apply Hthrow in Hc.
Qed.

Lemma for_loop_throws_bound render loopEnd varName sections (m : ValueByName) :
  keeps_map render -> throws_above render -> m !! varName = None ->
  forall fuel i result e m',
  for_loop render loopEnd varName sections fuel i result m = Throws e m' ->
  m ⊆ m' /\ is_Some (m' !! varName).
Proof.
  intros Hkeep Hthrow Hm.
  induction fuel as [|fuel IH]; intros i result e m' Hret; simpl in Hret;
    destruct (i <? loopEnd)%Z; try discriminate.
  destruct (render_sections render sections result (<[varName := IntValue i]> m))
    as [result' m1|e1 m1|] eqn:Hsec; [| |discriminate].
  - apply (render_sections_text _ Hkeep) in Hsec as [-> _].
    rewrite delete_insert_id in Hret by exact Hm. now apply IH in Hret.
  - injection Hret as <- <-.
    apply (render_sections_throws_above _ _ Hkeep Hthrow) in Hsec.
    split.
    + etransitivity; [|exact Hsec]. now apply insert_subseteq.
    + exists (IntValue i).
      apply (lookup_weaken _ _ _ _ (lookup_insert_eq m varName _) Hsec).
Qed.

Lemma render_throws_above fuel : throws_above (render fuel).
Proof.
  induction fuel as [|fuel IH]; intros section m e m' Hret; [discriminate|].
  pose proof (render_keeps_map fuel) as Hkeep.
  destruct section as [sections|loopStart loopEnd varName sections
                      |templateCode sections|neg name sections]; simpl in Hret.
  - now apply (render_sections_throws_above _ _ Hkeep IH) in Hret.
  - destruct (m !! varName) eqn:Hm; [now injection Hret as <- <-|].
    now apply (for_loop_throws_bound _ _ _ _ _ Hkeep IH Hm) in Hret as [? _].
  - destruct (doSubstitutions templateCode m);
      [now injection Hret as <- <- | discriminate].
  - destruct (computeExpression neg name m); [|discriminate].
    now apply (render_sections_throws_above _ _ Hkeep IH) in Hret.
Qed.

(** When the body of a loop throws, the throw leaves [ForSection::render]
    past the [erase]: the loop variable, unbound on entry, is bound in the
    map the caller gets back. *)
Lemma ForSection_body_throw_leaks fuel loopStart loopEnd varName sections
    (m : ValueByName) e m' :
  m !! varName = None ->
  render fuel (ForSection loopStart loopEnd varName sections) m = Throws e m' ->
  is_Some (m' !! varName) /\ m' <> m.
Proof.
  intros Hm Hret. destruct fuel as [|fuel]; [discriminate|]. simpl in Hret.
  rewrite Hm in Hret.
  apply (for_loop_throws_bound _ _ _ _ _ (render_keeps_map fuel)
           (render_throws_above fuel) Hm) in Hret as [_ [v Hv]].
  split; [now exists v|]. intros ->. congruence.
Qed.

End Throws.

(** * The scenarios of the specification, and the theorems at work *)

Example hello_world :
  render (impl := example_impl) 2 (Root [Code "Hello {{name}}!" []])
    {["name" := StringValue "World"]}
  = Returns "Hello World!" {["name" := StringValue "World"]}.
Proof. vm_compute. reflexivity. Qed.

Example if_not_flag :
  render (impl := example_impl) 2 (IfSection true "flag" [Code "empty" []]) ∅
  = Returns "empty" ∅
  /\ render (impl := example_impl) 2 (IfSection true "flag" [Code "empty" []])
       {["flag" := IntValue 1]}
     = Returns "" {["flag" := IntValue 1]}.
Proof. split; vm_compute; reflexivity. Qed.

(** The inner loop reuses the name of the outer one: the inner call throws
    on entry, and the throw leaves the outer loop with [x] bound. *)
Example nested_same_name :
  render (impl := example_impl) 3
    (Root [ForSection 0 2 "x" [ForSection 0 2 "x" []]]) ∅
  = Throws (already_exists "x") {["x" := IntValue 0]}.
Proof. vm_compute. reflexivity. Qed.

Lemma ForSection_render_concatenates_witness :
  (∅ : ValueByName) !! "i" = None
  /\ (Z.to_nat (3 - 0) <= 3)%nat
  /\ render (impl := example_impl) 4 (ForSection 0 3 "i" [Code "{{i}}," []]) ∅
     = Returns "0,1,2," ∅.
Proof.
  assert ((Z.to_nat (3 - 0) <= 3)%nat) as Hfuel by (simpl; lia).
  assert ((∅ : ValueByName) !! "i" = None) as Hm by reflexivity.
  split; [exact Hm|]. split; [exact Hfuel|].
  rewrite (proj1 (ForSection_render_concatenates (impl := example_impl)
                    3 0 3 "i" [Code "{{i}}," []] ∅ Hm Hfuel)
             (fun i => pretty i +:+ ",")).
  - vm_compute. reflexivity.
  - intros i Hi.
    assert (i = 0 \/ i = 1 \/ i = 2)%Z as [->|[->| ->]] by lia;
      vm_compute; reflexivity.
Defined.

(** C2, as stated, fails: entered with [x] bound, the loop throws, and [x]
    is in the map afterwards. *)
Lemma ForSection_bound_variable_stays :
  exists e m',
    render (impl := example_impl) 1 (ForSection 0 1 "x" [])
      {["x" := IntValue 5]}
    = Throws e m'
    /\ m' !! "x" = Some (IntValue 5).
Proof.
  exists (already_exists "x"), {["x" := IntValue 5]}.
  split; vm_compute; reflexivity.
Qed.

Lemma ForSection_render_restores_witness :
  (exists text m',
     render (impl := example_impl) 4 (ForSection 0 3 "i" [Code "{{i}}," []]) ∅
     = Returns text m'
     /\ m' = ∅ /\ m' !! "i" = None)
  /\ render (impl := example_impl) 1 (ForSection 0 3 "i" [Code "{{i}}," []])
       {["i" := IntValue 7]}
     = Throws (already_exists "i") {["i" := IntValue 7]}.
Proof.
  split.
  - exists "0,1,2,", ∅. split; [vm_compute; reflexivity|].
    apply (proj1 (ForSection_render_restores (impl := example_impl)
                    4 0 3 "i" [Code "{{i}}," []] ∅) "0,1,2,").
    vm_compute. reflexivity.
  - apply (proj2 (ForSection_render_restores (impl := example_impl)
                    0 0 3 "i" [Code "{{i}}," []] {["i" := IntValue 7]})).
    exists (IntValue 7). vm_compute. reflexivity.
Defined.

Lemma ForSection_render_bound_fails_witness :
  ({["x" := IntValue 5]} : ValueByName) !! "x" = Some (IntValue 5)
  /\ exists e m',
       render (impl := example_impl) 3 (ForSection 0 2 "x" [Code "{{x}}" []])
         {["x" := IntValue 5]}
       = Throws e m'
       /\ m' !! "x" = Some (IntValue 5).
Proof.
  assert (({["x" := IntValue 5]} : ValueByName) !! "x" = Some (IntValue 5))
    as Hx by (vm_compute; reflexivity).
  split; [exact Hx|].
  apply (proj2 (ForSection_render_bound_fails (impl := example_impl)
                  2 0 2 "x" [Code "{{x}}" []] _ _ Hx)).
Defined.

Lemma ForSection_render_empty_range_witness :
  (3 >= 3)%Z
  /\ (∅ : ValueByName) !! "i" = None
  /\ render (impl := example_impl) 1 (ForSection 3 3 "i" [Code "{{missing}}" []]) ∅
     = Returns "" ∅.
Proof.
  assert (3 >= 3)%Z as Hge by lia.
  assert ((∅ : ValueByName) !! "i" = None) as Hm by reflexivity.
  split; [exact Hge|]. split; [exact Hm|].
  apply (ForSection_render_empty_range (impl := example_impl)
           0 3 3 "i" [Code "{{missing}}" []] ∅ Hge Hm).
Defined.

Lemma render_terminates_witness :
  (fuel_bound (Root [ForSection 0 3 "i" [Code "{{i}}," []]]) <= 7)%nat
  /\ render (impl := example_impl) 7
       (Root [ForSection 0 3 "i" [Code "{{i}}," []]]) ∅
     <> OutOfFuel.
Proof.
  assert (fuel_bound (Root [ForSection 0 3 "i" [Code "{{i}}," []]]) <= 7)%nat
    as Hfuel by (vm_compute; lia).
  split; [exact Hfuel|].
  apply (proj1 (render_terminates (impl := example_impl)
                  (Root [ForSection 0 3 "i" [Code "{{i}}," []]]) ∅ 7 Hfuel)).
Defined.

Lemma ForSection_collision_atomic_witness :
  is_Some (({["x" := IntValue 5]} : ValueByName) !! "x")
  /\ render (impl := example_impl) 1 (ForSection 2 2 "x" [Code "{{x}}" []])
       {["x" := IntValue 5]}
     = Throws (already_exists "x") {["x" := IntValue 5]}.
Proof.
  assert (is_Some (({["x" := IntValue 5]} : ValueByName) !! "x")) as Hx
    by (exists (IntValue 5); vm_compute; reflexivity).
  split; [exact Hx|].
  apply (proj1 (ForSection_collision_atomic (impl := example_impl)
                  2 2 "x" [Code "{{x}}" []] _ Hx)).
Defined.

Lemma IfSection_render_by_condition_witness :
  if_condition true "flag" {["flag" := IntValue 0]}
  /\ render (impl := example_impl) 2 (IfSection true "flag" [Code "empty" []])
       {["flag" := IntValue 0]}
     = Returns "empty" {["flag" := IntValue 0]}.
Proof.
  assert (if_condition true "flag" {["flag" := IntValue 0]}) as Hcond.
  { intros (v & Hv & Ht). vm_compute in Hv. injection Hv as <-. discriminate. }
  split; [exact Hcond|].
  apply (proj2 (proj1 (IfSection_render_by_condition (helper := example_helper)
                         {["flag" := IntValue 0]} 1 true "flag"
                         [Code "empty" []]) Hcond)).
  vm_compute. reflexivity.
Defined.

Lemma doSubstitutions_fails_witness :
  (SpecModel.references "Hello {{ name }}!" "name"
   /\ (∅ : ValueByName) !! "name" = None
   /\ ~ SpecModel.occurs "}}" " x")
  /\ (exists e, SpecModel.doSubstitutions (helper := example_helper)
                  "Hello {{ name }}!" ∅ = inl e)
  /\ (exists e, SpecModel.doSubstitutions (helper := example_helper)
                  "a {{ x" ∅ = inl e).
Proof.
  assert (SpecModel.references "Hello {{ name }}!" "name") as Href.
  { apply (SpecModel.references_here "Hello " " name " "!");
      apply not_occurs; vm_compute; reflexivity. }
  assert (~ SpecModel.occurs "}}" " x") as Hopen
    by (apply not_occurs; vm_compute; reflexivity).
  assert ((∅ : ValueByName) !! "name" = None) as Hm by reflexivity.
  split; [split; [exact Href | split; [exact Hm | exact Hopen]]|].
  split.
  - destruct (proj1 (doSubstitutions_fails (helper := example_helper) ∅)
                _ _ Href Hm) as (e & He & _).
    now exists e.
  - destruct (proj1 (proj2 (doSubstitutions_fails (helper := example_helper) ∅))
                "a " " x" Hopen) as (e & He & _).
    now exists e.
Defined.

(** * More of the render methods *)

Section RenderMore.

Context {impl : TemplateImpl}.

(** The methods, one equation each. *)
Lemma render_Root_eq fuel sections (m : ValueByName) :
  render (S fuel) (Root sections) m
  = render_sections (render fuel) sections "" m.
Proof. reflexivity. Qed.

Lemma render_ForSection_eq fuel loopStart loopEnd varName sections
    (m : ValueByName) :
  render (S fuel) (ForSection loopStart loopEnd varName sections) m
  = match m !! varName with
    | Some _ => Throws (already_exists varName) m
    | None => for_loop (render fuel) loopEnd varName sections fuel loopStart "" m
    end.
Proof. reflexivity. Qed.

Lemma render_Code_eq fuel templateCode sections (m : ValueByName) :
  render (S fuel) (Code templateCode sections) m
  = match doSubstitutions templateCode m with
    | inr processed => Returns processed m
    | inl e => Throws e m
    end.
Proof. reflexivity. Qed.

Lemma render_IfSection_eq fuel neg name sections (m : ValueByName) :
  render (S fuel) (IfSection neg name sections) m
  = if computeExpression neg name m
    then render_sections (render fuel) sections "" m
    else Returns "" m.
Proof. reflexivity. Qed.

Lemma for_loop_eq render loopEnd varName sections fuel i result
    (m : ValueByName) :
  for_loop render loopEnd varName sections (S fuel) i result m
  = if (i <? loopEnd)%Z then
      match render_sections render sections result
              (<[varName := IntValue i]> m) with
      | Returns result' m' =>
          for_loop render loopEnd varName sections fuel (i + 1) result'
            (delete varName m')
      | Throws e m' => Throws e m'
      | OutOfFuel => OutOfFuel
      end
    else Returns result m.
Proof. reflexivity. Qed.

Lemma children_text_app render a b (m : ValueByName) :
  children_text render (a ++ b) m
  = match children_text render a m, children_text render b m with
    | Some x, Some y => Some (x +:+ y)
    | _, _ => None
    end.
Proof.
  induction a as [|c a IH]; simpl.
  - now destruct (children_text render b m).
  - destruct (render c m) as [t1 m1| |]; try reflexivity.
    rewrite IH.
    destruct (children_text render a m), (children_text render b m);
      try reflexivity.
    now rewrite append_assoc.
Qed.

(** The inner loop stops at the first child that throws. *)
Lemma render_sections_first_throw render c post e (m m' : ValueByName) :
  keeps_map render ->
  render c m = Throws e m' ->
  forall pre result text,
  children_text render pre m = Some text ->
  render_sections render (pre ++ c :: post) result m = Throws e m'.
Proof.
  intros Hkeep Hc. induction pre as [|c0 pre IH]; intros result text Hpre; simpl.
  - now rewrite Hc.
  - simpl in Hpre. destruct (render c0 m) as [t0 m0| |] eqn:Hc0; try discriminate.
    apply Hkeep in Hc0 as ->.
    destruct (children_text render pre m) as [t|]; [|discriminate].
    now apply (IH _ t).
Qed.

(** A throw of the inner loop is the throw of one child, called with the
    map the loop was entered with. *)
Lemma render_sections_throw_at render sections :
  keeps_map render ->
  forall result (m : ValueByName) e m',
  render_sections render sections result m = Throws e m' ->
  exists c, c ∈ sections /\ render c m = Throws e m'.
Proof.
  intros Hkeep. induction sections as [|c0 rest IH]; intros result m e m' Hret;
    simpl in Hret; [discriminate|].
  destruct (render c0 m) as [t0 m0|e0 m0|] eqn:Hc0; [| |discriminate].
  - apply Hkeep in Hc0 as ->. apply IH in Hret as (c & Hc & Hthrow).
    exists c. split; [now right | exact Hthrow].
  - injection Hret as <- <-. exists c0. split; [now left | exact Hc0].
Qed.

(** A throw of the loop is the throw of one child in one iteration. *)
Lemma for_loop_throw_at render loopEnd varName sections (m : ValueByName) :
  keeps_map render -> m !! varName = None ->
  forall fuel i result err m',
  for_loop render loopEnd varName sections fuel i result m = Throws err m' ->
  exists c j, c ∈ sections /\ (i <= j < loopEnd)%Z
              /\ render c (<[varName := IntValue j]> m) = Throws err m'.
Proof.
  intros Hkeep Hm.
  induction fuel as [|fuel IH]; intros i result err m' Hret; simpl in Hret;
    destruct (Z.ltb_spec i loopEnd) as [Hlt|Hge]; try discriminate.
  destruct (render_sections render sections result (<[varName := IntValue i]> m))
    as [result' m1|e1 m1|] eqn:Hsec; [| |discriminate].
  - apply (render_sections_text _ Hkeep) in Hsec as [-> _].
    rewrite delete_insert_id in Hret by exact Hm.
    apply IH in Hret as (c & j & Hc & Hj & Hthrow).
    exists c, j. repeat split; (lia || assumption).
  - injection Hret as <- <-.
    apply (render_sections_throw_at _ _ Hkeep) in Hsec as (c & Hc & Hthrow).
    exists c, i. repeat split; (lia || assumption).
Qed.

Lemma range_text_app text (a b c : Z) :
  (a <= b <= c)%Z ->
  range_text text a c = range_text text a b +:+ range_text text b c.
Proof.
  intros [Hab Hbc]. remember (Z.to_nat (b - a)) as n eqn:Hn.
  revert a Hab Hn. induction n as [|n IH]; intros a Hab Hn.
  - assert (a = b) as -> by lia. now rewrite (range_text_empty text b b) by lia.
  - rewrite (range_text_first text a c), (range_text_first text a b) by lia.
    rewrite (IH (a + 1)%Z) by lia. now rewrite append_assoc.
Qed.

Lemma range_text_nil (a e : Z) : range_text (fun _ => "") a e = "".
Proof.
  remember (Z.to_nat (e - a)) as n eqn:Hn.
  revert a Hn. induction n as [|n IH]; intros a Hn.
  - apply range_text_empty. lia.
  - rewrite range_text_first by lia. rewrite IH by lia. reflexivity.
Qed.

Lemma Root_render_returns fuel sections (m : ValueByName) text m' :
  render (S fuel) (Root sections) m = Returns text m'
  <-> m' = m /\ children_text (render fuel) sections m = Some text.
Proof.
  rewrite render_Root_eq, (render_sections_text _ (render_keeps_map fuel)).
  split.
  - intros [-> (body & Hbody & ->)]. now rewrite append_nil_l.
  - intros [-> Hbody]. split; [reflexivity|]. now exists text.
Qed.

(** X1: [Root::render] returns exactly when every child returns when
    rendered in the map of the call; the text is the in-order concatenation
    of the children's texts and the map is the one of the call. *)
Theorem Root_render_concatenates fuel sections (m : ValueByName) text m' :
  render (S fuel) (Root sections) m = Returns text m'
  <-> m' = m /\ children_text (render fuel) sections m = Some text.
Proof.
  rewrite render_Root_eq. split.
  - intros Hret.
    apply (render_sections_text _ (render_keeps_map fuel)) in Hret
      as [-> (body & Hbody & ->)].
    now rewrite append_nil_l.
  - intros [-> Hbody].
    apply (render_sections_text _ (render_keeps_map fuel)).
    split; [reflexivity|]. exists text. now rewrite append_nil_l.
Qed.

(** X2: [Root::render] stops at the first child that throws: when the
    children before it return, the call throws that child's error with that
    child's map, whatever the children after it are. *)
Theorem Root_render_first_throw fuel pre c post (m : ValueByName) text e m' :
  children_text (render fuel) pre m = Some text ->
  render fuel c m = Throws e m' ->
  render (S fuel) (Root (pre ++ c :: post)) m = Throws e m'.
Proof.
  intros Hpre Hc. rewrite render_Root_eq.
  now apply (render_sections_first_throw _ _ _ _ _ _ (render_keeps_map fuel) Hc
               pre "" text).
Qed.

(** X3: rendering composes over the list of children: when the roots over
    [a] and over [b] return, the root over [a ++ b] returns the two texts
    in that order. *)
Theorem Root_render_app fuel a b (m : ValueByName) t1 t2 m1 m2 :
  render (S fuel) (Root a) m = Returns t1 m1 ->
  render (S fuel) (Root b) m = Returns t2 m2 ->
  render (S fuel) (Root (a ++ b)) m = Returns (t1 +:+ t2) m.
Proof.
  intros Ha Hb.
  apply Root_render_returns in Ha as [_ Ha].
  apply Root_render_returns in Hb as [_ Hb].
  apply Root_render_returns. split; [reflexivity|].
  now rewrite children_text_app, Ha, Hb.
Qed.

End RenderMore.

(** ** The map across a call, and where a throw comes from *)

Section RenderFrame.

Context {impl : TemplateImpl}.

Lemma loop_vars_elem c sections :
  c ∈ sections -> loop_vars c ⊆ sections_loop_vars sections.
Proof. induction 1 as [c l|c c' l _ IH]; simpl; set_solver. Qed.

Lemma code_fragments_elem c sections code :
  c ∈ sections -> code ∈ code_fragments c ->
  code ∈ sections_code_fragments sections.
Proof.
  induction 1 as [c l|c c' l _ IH]; simpl; intros Hcode;
    rewrite elem_of_app; auto.
Qed.

Lemma forallb_elem {A} (f : A -> bool) (l : list A) c :
  forallb f l = true -> c ∈ l -> f c = true.
Proof.
  intros Hall. induction 1 as [c l|c c' l _ IH]; simpl in Hall;
    apply andb_true_iff in Hall as [Hc Hl]; auto.
Qed.

Lemma children_text_all_return render sections (m : ValueByName) :
  (forall c, c ∈ sections -> exists text, render c m = Returns text m) ->
  is_Some (children_text render sections m).
Proof.
  induction sections as [|c rest IH]; intros Hall; simpl; [now eexists|].
  destruct (Hall c) as [t ->]; [now left|].
  destruct IH as [ts ->]; [|now eexists].
  intros c' Hc'. apply Hall. now right.
Qed.

(** X4: whichever section it is called on, a [render] that returns
    leaves the map exactly as it received it; rendering the same section
    again with the map it left returns the same text. *)
Theorem render_return_restores_map fuel section (m : ValueByName) text m' :
  render fuel section m = Returns text m' ->
  m' = m /\ render fuel section m' = Returns text m'.
Proof.
  intros Hret. pose proof (render_keeps_map fuel _ _ _ _ Hret) as ->.
  split; [reflexivity | exact Hret].
Qed.

(** X5: a [render] that throws has not removed or changed any binding
    the caller had. *)
Theorem render_throw_keeps_bindings fuel section (m : ValueByName) e m'
    name value :
  render fuel section m = Throws e m' ->
  m !! name = Some value ->
  m' !! name = Some value.
Proof.
  intros Hret Hname. apply render_throws_above in Hret.
  exact (lookup_weaken _ _ _ _ Hname Hret).
Qed.

(** X6: when the body of a loop throws, the caller gets the map with the
    loop variable bound to the index of the iteration that threw; the loop
    cannot be rendered again with that map: the check on entry throws. *)
Theorem ForSection_throw_then_rerender fuel fuel' loopStart loopEnd varName
    sections (m : ValueByName) e m' :
  m !! varName = None ->
  render fuel (ForSection loopStart loopEnd varName sections) m = Throws e m' ->
  (exists j, (loopStart <= j < loopEnd)%Z /\ m' !! varName = Some (IntValue j))
  /\ render (S fuel') (ForSection loopStart loopEnd varName sections) m'
     = Throws (already_exists varName) m'.
Proof.
  intros Hm Hret. destruct fuel as [|fuel]; [discriminate|].
  rewrite render_ForSection_eq, Hm in Hret.
  apply (for_loop_throw_at _ _ _ _ _ (render_keeps_map fuel) Hm) in Hret
    as (c & j & _ & Hj & Hthrow).
  apply render_throws_above in Hthrow.
  pose proof (lookup_weaken _ _ _ _ (lookup_insert_eq m varName (IntValue j))
                Hthrow) as Hv.
  split; [now exists j|].
  rewrite render_ForSection_eq. now rewrite Hv.
Qed.

(** X7: a loop over [a, c) renders what the loops over [a, b) and
    [b, c) render, one after the other. *)
Theorem ForSection_render_range_split fuel (a b c : Z) varName sections
    (m : ValueByName) t1 t2 m1 m2 :
  (a <= b <= c)%Z ->
  (Z.to_nat (c - a) <= fuel)%nat ->
  render (S fuel) (ForSection a b varName sections) m = Returns t1 m1 ->
  render (S fuel) (ForSection b c varName sections) m = Returns t2 m2 ->
  render (S fuel) (ForSection a c varName sections) m = Returns (t1 +:+ t2) m.
Proof.
  intros Habc Hfuel H1 H2. rewrite render_ForSection_eq in *.
  destruct (m !! varName) eqn:Hm; [discriminate|].
  pose proof (render_keeps_map fuel) as Hkeep.
  apply (for_loop_returns_inv _ Hkeep _ _ _ _ Hm) in H1 as (_ & Hab & ->).
  apply (for_loop_returns_inv _ Hkeep _ _ _ _ Hm) in H2 as (_ & Hbc & ->).
  rewrite (for_loop_range _ Hkeep _ _ _ _ Hm
             (iteration_text (render fuel) varName sections m)).
  - rewrite !append_nil_l. now rewrite (range_text_app _ a b c).
  - intros j Hj. destruct (Z.lt_ge_cases j b); [apply Hab | apply Hbc]; lia.
  - exact Hfuel.
Qed.

(** X8: a loop whose body holds a loop over the same variable throws in
    its first iteration, when the children before the inner loop return: the
    inner loop finds the variable bound. The caller gets the map with the
    variable bound to [loopStart]. *)
Theorem ForSection_nested_same_name fuel loopStart loopEnd varName pre
    loopStart' loopEnd' sections' post (m : ValueByName) text :
  m !! varName = None ->
  (loopStart < loopEnd)%Z ->
  children_text (render (S fuel)) pre (<[varName := IntValue loopStart]> m)
  = Some text ->
  render (S (S fuel))
    (ForSection loopStart loopEnd varName
       (pre ++ ForSection loopStart' loopEnd' varName sections' :: post)) m
  = Throws (already_exists varName) (<[varName := IntValue loopStart]> m).
Proof.
  intros Hm Hlt Hpre. rewrite render_ForSection_eq, Hm, for_loop_eq.
  destruct (Z.ltb_spec loopStart loopEnd) as [_|]; [|lia].
  rewrite (render_sections_first_throw _ _ _ (already_exists varName) _
             (<[varName := IntValue loopStart]> m)
             (render_keeps_map (S fuel))) with (text := text);
    [reflexivity | | exact Hpre].
  rewrite render_ForSection_eq. now rewrite lookup_insert_eq.
Qed.

(** X9: a loop without children returns the empty string for every
    range, and the map unchanged. *)
Theorem ForSection_render_empty_body fuel loopStart loopEnd varName
    (m : ValueByName) :
  m !! varName = None ->
  (Z.to_nat (loopEnd - loopStart) <= fuel)%nat ->
  render (S fuel) (ForSection loopStart loopEnd varName []) m = Returns "" m.
Proof.
  intros Hm Hfuel. rewrite render_ForSection_eq, Hm.
  rewrite (for_loop_range _ (render_keeps_map fuel) _ _ _ _ Hm (fun _ => ""))
    by (reflexivity || exact Hfuel).
  now rewrite range_text_nil.
Qed.

(** X10: [render] throws only two kinds of error: the collision of a
    loop variable of the tree, or an error that [doSubstitutions] returned
    for the text of a [Code] of the tree. *)
Theorem render_error_sources fuel section (m : ValueByName) e m' :
  render fuel section m = Throws e m' ->
  (exists varName, varName ∈ loop_vars section /\ e = already_exists varName)
  \/ (exists templateCode m0,
        templateCode ∈ code_fragments section
        /\ doSubstitutions templateCode m0 = inl e).
Proof.
  revert section m e m'.
  induction fuel as [|fuel IH]; intros section m e m' Hret; [discriminate|].
  pose proof (render_keeps_map fuel) as Hkeep.
  assert (forall sections c m0,
            c ∈ sections -> render fuel c m0 = Throws e m' ->
            (exists varName, varName ∈ sections_loop_vars sections
                             /\ e = already_exists varName)
            \/ (exists templateCode m1,
                  templateCode ∈ sections_code_fragments sections
                  /\ doSubstitutions templateCode m1 = inl e)) as Hchild.
  { intros sections c m0 Hc Hthrow.
    destruct (IH _ _ _ _ Hthrow) as [(x & Hx & ->)|(code & m1 & Hcode & He)].
    - left. exists x. split; [|reflexivity].
      now apply (loop_vars_elem c sections Hc).
    - right. exists code, m1. split; [|exact He].
      now apply (code_fragments_elem c). }
  destruct section as [sections|loopStart loopEnd varName sections
                      |templateCode sections|neg name sections].
  - rewrite render_Root_eq in Hret.
    apply (render_sections_throw_at _ _ Hkeep) in Hret as (c & Hc & Hthrow).
    exact (Hchild _ _ _ Hc Hthrow).
  - rewrite render_ForSection_eq in Hret.
    destruct (m !! varName) eqn:Hm.
    + injection Hret as <- <-. left. exists varName.
      split; [|reflexivity]. change (varName ∈ {[varName]} ∪ sections_loop_vars sections).
      set_solver.
    + apply (for_loop_throw_at _ _ _ _ _ Hkeep Hm) in Hret
        as (c & j & Hc & _ & Hthrow).
      destruct (Hchild _ _ _ Hc Hthrow) as [(x & Hx & ->)|Hcode].
      * left. exists x. split; [|reflexivity].
        change (x ∈ {[varName]} ∪ sections_loop_vars sections). set_solver.
      * right. exact Hcode.
  - rewrite render_Code_eq in Hret.
    destruct (doSubstitutions templateCode m) as [e0|] eqn:He; [|discriminate].
    injection Hret as <- <-. right. exists templateCode, m.
    split; [now left | exact He].
  - rewrite render_IfSection_eq in Hret.
    destruct (computeExpression neg name m); [|discriminate].
    apply (render_sections_throw_at _ _ Hkeep) in Hret as (c & Hc & Hthrow).
    exact (Hchild _ _ _ Hc Hthrow).
Qed.

(** X11: the map a throw leaves differs from the map of the call only
    at loop variables of the tree. *)
Theorem render_throw_binds_loop_vars fuel section (m : ValueByName) e m' name :
  render fuel section m = Throws e m' ->
  name ∉ loop_vars section ->
  m' !! name = m !! name.
Proof.
  revert section m e m'.
  induction fuel as [|fuel IH]; intros section m e m' Hret Hname; [discriminate|].
  pose proof (render_keeps_map fuel) as Hkeep.
  assert (forall sections c m0,
            name ∉ sections_loop_vars sections ->
            c ∈ sections -> render fuel c m0 = Throws e m' ->
            m' !! name = m0 !! name) as Hchild.
  { intros sections c m0 Hnot Hc Hthrow. apply (IH _ _ _ _ Hthrow).
    intros Hin. apply Hnot. now apply (loop_vars_elem c sections Hc). }
  destruct section as [sections|loopStart loopEnd varName sections
                      |templateCode sections|neg name' sections].
  - rewrite render_Root_eq in Hret.
    apply (render_sections_throw_at _ _ Hkeep) in Hret as (c & Hc & Hthrow).
    exact (Hchild _ _ _ Hname Hc Hthrow).
  - change (name ∉ {[varName]} ∪ sections_loop_vars sections) in Hname.
    rewrite render_ForSection_eq in Hret.
    destruct (m !! varName) eqn:Hm; [now injection Hret as <- <-|].
    apply (for_loop_throw_at _ _ _ _ _ Hkeep Hm) in Hret
      as (c & j & Hc & _ & Hthrow).
    rewrite (Hchild sections c _ ltac:(set_solver) Hc Hthrow).
    apply lookup_insert_ne. set_solver.
  - rewrite render_Code_eq in Hret.
    destruct (doSubstitutions templateCode m); [|discriminate].
    now injection Hret as <- <-.
  - rewrite render_IfSection_eq in Hret.
    destruct (computeExpression neg name' m); [|discriminate].
    apply (render_sections_throw_at _ _ Hkeep) in Hret as (c & Hc & Hthrow).
    exact (Hchild _ _ _ Hname Hc Hthrow).
Qed.

(** X12: [render] returns, with the map unchanged, on every tree in
    which no loop reuses a name bound where it is entered (a key of the map
    or the variable of a loop around it), provided [doSubstitutions] returns
    on the text of every [Code] under the maps in which the rendering
    reaches it: the map of the call with the variables of the loops around
    the [Code] bound to indices of their ranges. *)
Theorem render_well_scoped_returns fuel section (m : ValueByName) :
  well_scoped section (dom m) = true ->
  (forall templateCode m0, rendered_at section m templateCode m0 ->
     exists text, doSubstitutions templateCode m0 = inr text) ->
  (fuel_bound section <= fuel)%nat ->
  exists text, render fuel section m = Returns text m.
Proof.
  revert section m.
  induction fuel as [|fuel IH]; intros section m Hscoped Hcodes Hfuel.
  { destruct section; simpl in Hfuel; lia. }
  pose proof (render_keeps_map fuel) as Hkeep.
  assert (forall sections bound m0,
            forallb (fun c => well_scoped c bound) sections = true ->
            dom m0 = bound ->
            (forall c templateCode m1,
               c ∈ sections -> rendered_at c m0 templateCode m1 ->
               exists text, doSubstitutions templateCode m1 = inr text) ->
            (sections_bound sections <= fuel)%nat ->
            forall c, c ∈ sections ->
            exists text, render fuel c m0 = Returns text m0) as Hchild.
  { intros sections bound m0 Hall Hdom Hcs Hb c Hc. apply IH.
    - rewrite Hdom. exact (forallb_elem _ _ _ Hall Hc).
    - intros code m1 Hcode. exact (Hcs c code m1 Hc Hcode).
    - pose proof (sections_bound_elem c sections Hc). lia. }
  destruct section as [sections|loopStart loopEnd varName sections
                      |templateCode sections|neg name sections].
  - rewrite fuel_bound_Root in Hfuel. simpl in Hscoped.
    destruct (children_text_all_return (render fuel) sections m) as [text Ht].
    { apply (Hchild sections (dom m)); (reflexivity || assumption || lia || idtac).
      intros c code m1 Hc Hat. apply Hcodes.
      exact (rendered_at_Root _ _ _ _ _ Hc Hat). }
    exists text. now apply Root_render_returns.
  - rewrite fuel_bound_ForSection in Hfuel. simpl in Hscoped.
    apply andb_true_iff in Hscoped as [Hfresh Hall].
    apply bool_decide_eq_true_1, not_elem_of_dom_1 in Hfresh.
    exists (range_text (iteration_text (render fuel) varName sections m)
              loopStart loopEnd).
    rewrite render_ForSection_eq, Hfresh.
    rewrite (for_loop_range _ Hkeep _ _ _ _ Hfresh
               (iteration_text (render fuel) varName sections m));
      [now rewrite append_nil_l | | lia].
    intros j Hj. unfold iteration_text.
    destruct (children_text_all_return (render fuel) sections
                (<[varName := IntValue j]> m)) as [text ->]; [|reflexivity].
    apply (Hchild sections ({[varName]} ∪ dom m));
      (assumption || lia || idtac).
    + apply dom_insert_L.
    + intros c code m1 Hc Hat. apply Hcodes.
      exact (rendered_at_ForSection _ _ _ _ _ _ _ _ _ Hc Hj Hat).
  - destruct (Hcodes templateCode m) as [text Ht]; [constructor|].
    exists text. rewrite render_Code_eq. now rewrite Ht.
  - rewrite fuel_bound_IfSection in Hfuel. simpl in Hscoped.
    rewrite render_IfSection_eq.
    destruct (computeExpression neg name m) eqn:Hcond; [|now eexists].
    destruct (children_text_all_return (render fuel) sections m) as [text Ht].
    { apply (Hchild sections (dom m)); (reflexivity || assumption || lia || idtac).
      intros c code m1 Hc Hat. apply Hcodes.
      exact (rendered_at_IfSection _ _ _ _ _ _ _ Hc Hcond Hat). }
    exists text. apply (render_sections_text _ Hkeep).
    split; [reflexivity|]. now exists text.
Qed.

End RenderFrame.

(** * The debug dump *)

Section DumpFacts.

Import Dump.

(** Induction over a tree, with the property known for the children. *)
Lemma Node_nested_ind (P : Node -> Prop) :
  (forall sections, Forall P sections -> P (Root sections)) ->
  (forall loopStart loopEnd varName startPos endPos sections,
     Forall P sections ->
     P (ForSection loopStart loopEnd varName startPos endPos sections)) ->
  (forall startPos endPos templateCode sections,
     Forall P sections -> P (Code startPos endPos templateCode sections)) ->
  (forall neg name sections,
     Forall P sections -> P (IfSection neg name sections)) ->
  forall section, P section.
Proof.
  intros HRoot HFor HCode HIf. fix IH 1.
  intros [sections|loopStart loopEnd varName startPos endPos sections
         |startPos endPos templateCode sections|neg name sections];
    [apply HRoot | apply HFor | apply HCode | apply HIf];
    induction sections as [|c l IHl]; constructor;
      solve [apply IH | exact IHl].
Qed.

Lemma print_Root_eq prefix sections :
  print prefix (Root sections)
  = ([prefix +:+ "Root {"] ++ print_sections prefix sections
     ++ [prefix +:+ "}"])%list.
Proof. reflexivity. Qed.

Lemma print_ForSection_eq prefix loopStart loopEnd varName startPos endPos
    sections :
  print prefix (ForSection loopStart loopEnd varName startPos endPos sections)
  = ([prefix +:+ "For ( " +:+ varName +:+ " in range(" +:+ pretty loopStart
        +:+ ", " +:+ pretty loopEnd +:+ " ) {"]
     ++ print_sections prefix sections ++ [prefix +:+ "}"])%list.
Proof. reflexivity. Qed.

Lemma print_Code_eq prefix startPos endPos templateCode sections :
  print prefix (Code startPos endPos templateCode sections)
  = ([prefix +:+ "Code ( " +:+ pretty startPos +:+ ", " +:+ pretty endPos
        +:+ " ) {"]
     ++ print_sections prefix sections ++ [prefix +:+ "}"])%list.
Proof. reflexivity. Qed.

Lemma print_IfSection_eq prefix neg name sections :
  print prefix (IfSection neg name sections)
  = ([prefix +:+ "if ( " +:+ (if neg then "not " else "") +:+ name +:+ " ) {"]
     ++ print_sections prefix sections ++ [prefix +:+ "}"])%list.
Proof. reflexivity. Qed.

Lemma print_sections_cons prefix c l :
  print_sections prefix (c :: l)
  = (print (prefix +:+ "    ") c ++ print_sections prefix l)%list.
Proof. reflexivity. Qed.

Lemma print_sections_prefix sections :
  Forall (fun c => forall p q,
            print (p +:+ q) c = String.append p <$> print q c) sections ->
  forall p q,
  print_sections (p +:+ q) sections
  = String.append p <$> print_sections q sections.
Proof.
  induction 1 as [|c l Hc _ IH]; intros p q; [reflexivity|].
  rewrite !print_sections_cons.
  now rewrite fmap_app, append_assoc, Hc, IH.
Qed.

Lemma print_sections_length sections :
  Forall (fun c => forall p,
            length (print p c) = (2 * count c)%nat) sections ->
  forall p,
  length (print_sections p sections) = (2 * count_sections sections)%nat.
Proof.
  induction 1 as [|c l Hc _ IH]; intros p; [reflexivity|].
  rewrite print_sections_cons. simpl count_sections.
  rewrite length_app, Hc, IH. lia.
Qed.

Lemma count_eq section :
  count section
  = match section with
    | Root sections
    | ForSection _ _ _ _ _ sections
    | Code _ _ _ sections
    | IfSection _ _ sections => S (count_sections sections)
    end.
Proof. now destruct section. Qed.

(** X13: [print] is uniform in its prefix: the dump under the prefix
    [p ++ q] is the dump under [q] with [p] put before every line; so
    [print(prefix)] writes the lines of [print()] behind [prefix], which is
    how a child, printed with four more blanks, ends up indented. *)
Theorem print_prefix section :
  (forall p q, print (p +:+ q) section = String.append p <$> print q section)
  /\ (forall prefix,
        print prefix section = String.append prefix <$> print_top section).
Proof.
  assert (forall p q,
            print (p +:+ q) section = String.append p <$> print q section)
    as Hpq.
  { induction section as [sections IH
                         |loopStart loopEnd varName startPos endPos sections IH
                         |startPos endPos templateCode sections IH
                         |neg name sections IH] using Node_nested_ind;
      intros p q;
      rewrite ?print_Root_eq, ?print_ForSection_eq, ?print_Code_eq,
        ?print_IfSection_eq;
      rewrite !fmap_app, (print_sections_prefix _ IH); simpl;
      now rewrite !append_assoc. }
  split; [exact Hpq|].
  intros prefix. unfold print_top. rewrite <- Hpq. now rewrite append_nil_r.
Qed.

(** X14: [print] writes two lines for every section of the tree, the
    opening line and the closing brace, the [sections] of a [Code]
    included. *)
Theorem print_length section prefix :
  length (print prefix section) = (2 * count section)%nat.
Proof.
  revert prefix.
  induction section as [sections IH
                       |loopStart loopEnd varName startPos endPos sections IH
                       |startPos endPos templateCode sections IH
                       |neg name sections IH] using Node_nested_ind;
    intros prefix;
    rewrite ?print_Root_eq, ?print_ForSection_eq, ?print_Code_eq,
      ?print_IfSection_eq, count_eq;
    rewrite !length_app, (print_sections_length _ IH); simpl; lia.
Qed.

End DumpFacts.

(** * The further properties at work *)

Lemma Root_render_first_throw_witness :
  children_text (render (impl := example_impl) 1) [Code "a" []] ∅ = Some "a"
  /\ render (impl := example_impl) 1 (Code "{{missing}}" []) ∅
     = Throws (SpecModel.unbound "missing") ∅
  /\ render (impl := example_impl) 2
       (Root ([Code "a" []] ++ Code "{{missing}}" [] :: [Code "{{other}}" []])) ∅
     = Throws (SpecModel.unbound "missing") ∅.
Proof.
  assert (children_text (render (impl := example_impl) 1) [Code "a" []] ∅
          = Some "a") as Hpre by (vm_compute; reflexivity).
  assert (render (impl := example_impl) 1 (Code "{{missing}}" []) ∅
          = Throws (SpecModel.unbound "missing") ∅) as Hc
    by (vm_compute; reflexivity).
  split; [exact Hpre|]. split; [exact Hc|].
  exact (Root_render_first_throw (impl := example_impl) 1 [Code "a" []]
           (Code "{{missing}}" []) [Code "{{other}}" []] ∅ "a" _ ∅ Hpre Hc).
Defined.

Lemma Root_render_app_witness :
  render (impl := example_impl) 2 (Root [Code "Hello " []])
    {["name" := StringValue "World"]}
  = Returns "Hello " {["name" := StringValue "World"]}
  /\ render (impl := example_impl) 2 (Root [Code "{{name}}!" []])
       {["name" := StringValue "World"]}
     = Returns "World!" {["name" := StringValue "World"]}
  /\ render (impl := example_impl) 2
       (Root ([Code "Hello " []] ++ [Code "{{name}}!" []]))
       {["name" := StringValue "World"]}
     = Returns ("Hello " +:+ "World!") {["name" := StringValue "World"]}.
Proof.
  assert (render (impl := example_impl) 2 (Root [Code "Hello " []])
            {["name" := StringValue "World"]}
          = Returns "Hello " {["name" := StringValue "World"]}) as Ha
    by (vm_compute; reflexivity).
  assert (render (impl := example_impl) 2 (Root [Code "{{name}}!" []])
            {["name" := StringValue "World"]}
          = Returns "World!" {["name" := StringValue "World"]}) as Hb
    by (vm_compute; reflexivity).
  split; [exact Ha|]. split; [exact Hb|].
  exact (Root_render_app (impl := example_impl) 1 _ _ _ _ _ _ _ Ha Hb).
Defined.

Lemma render_return_restores_map_witness :
  render (impl := example_impl) 4 (ForSection 0 3 "i" [Code "{{i}}," []])
    {["k" := IntValue 1]}
  = Returns "0,1,2," (delete "i" (<["i" := IntValue 2]> {["k" := IntValue 1]}))
  /\ delete "i" (<["i" := IntValue 2]> {["k" := IntValue 1]})
     = ({["k" := IntValue 1]} : ValueByName)
  /\ render (impl := example_impl) 4 (ForSection 0 3 "i" [Code "{{i}}," []])
       (delete "i" (<["i" := IntValue 2]> {["k" := IntValue 1]}))
     = Returns "0,1,2," (delete "i" (<["i" := IntValue 2]> {["k" := IntValue 1]})).
Proof.
  assert (render (impl := example_impl) 4 (ForSection 0 3 "i" [Code "{{i}}," []])
            {["k" := IntValue 1]}
          = Returns "0,1,2,"
              (delete "i" (<["i" := IntValue 2]> {["k" := IntValue 1]}))) as Hret
    by (vm_compute; reflexivity).
  split; [exact Hret|].
  exact (render_return_restores_map (impl := example_impl) _ _ _ _ _ Hret).
Defined.

Lemma render_throw_keeps_bindings_witness :
  render (impl := example_impl) 3 (ForSection 0 2 "x" [Code "{{y}}" []])
    {["k" := IntValue 1]}
  = Throws (SpecModel.unbound "y") (<["x" := IntValue 0]> {["k" := IntValue 1]})
  /\ ({["k" := IntValue 1]} : ValueByName) !! "k" = Some (IntValue 1)
  /\ (<["x" := IntValue 0]> {["k" := IntValue 1]} : ValueByName) !! "k"
     = Some (IntValue 1).
Proof.
  assert (render (impl := example_impl) 3 (ForSection 0 2 "x" [Code "{{y}}" []])
            {["k" := IntValue 1]}
          = Throws (SpecModel.unbound "y")
              (<["x" := IntValue 0]> {["k" := IntValue 1]})) as Hret
    by (vm_compute; reflexivity).
  assert (({["k" := IntValue 1]} : ValueByName) !! "k" = Some (IntValue 1))
    as Hk by (vm_compute; reflexivity).
  split; [exact Hret|]. split; [exact Hk|].
  exact (render_throw_keeps_bindings (impl := example_impl) _ _ _ _ _ _ _
           Hret Hk).
Defined.

Lemma ForSection_throw_then_rerender_witness :
  (∅ : ValueByName) !! "x" = None
  /\ render (impl := example_impl) 3 (ForSection 0 2 "x" [Code "{{y}}" []]) ∅
     = Throws (SpecModel.unbound "y") {["x" := IntValue 0]}
  /\ (exists j, (0 <= j < 2)%Z
                /\ ({["x" := IntValue 0]} : ValueByName) !! "x"
                   = Some (IntValue j))
  /\ render (impl := example_impl) 3 (ForSection 0 2 "x" [Code "{{y}}" []])
       {["x" := IntValue 0]}
     = Throws (already_exists "x") {["x" := IntValue 0]}.
Proof.
  assert ((∅ : ValueByName) !! "x" = None) as Hm by reflexivity.
  assert (render (impl := example_impl) 3 (ForSection 0 2 "x" [Code "{{y}}" []]) ∅
          = Throws (SpecModel.unbound "y") {["x" := IntValue 0]}) as Hret
    by (vm_compute; reflexivity).
  split; [exact Hm|]. split; [exact Hret|].
  exact (ForSection_throw_then_rerender (impl := example_impl) 3 2 _ _ _ _ _ _ _
           Hm Hret).
Defined.

Lemma ForSection_render_range_split_witness :
  (0 <= 1 <= 3)%Z
  /\ (Z.to_nat (3 - 0) <= 3)%nat
  /\ render (impl := example_impl) 4 (ForSection 0 1 "i" [Code "{{i}}," []]) ∅
     = Returns "0," ∅
  /\ render (impl := example_impl) 4 (ForSection 1 3 "i" [Code "{{i}}," []]) ∅
     = Returns "1,2," ∅
  /\ render (impl := example_impl) 4 (ForSection 0 3 "i" [Code "{{i}}," []]) ∅
     = Returns ("0," +:+ "1,2,") ∅.
Proof.
  assert (0 <= 1 <= 3)%Z as Hr by lia.
  assert (Z.to_nat (3 - 0) <= 3)%nat as Hfuel by (simpl; lia).
  assert (render (impl := example_impl) 4 (ForSection 0 1 "i" [Code "{{i}}," []]) ∅
          = Returns "0," ∅) as H1 by (vm_compute; reflexivity).
  assert (render (impl := example_impl) 4 (ForSection 1 3 "i" [Code "{{i}}," []]) ∅
          = Returns "1,2," ∅) as H2 by (vm_compute; reflexivity).
  split; [exact Hr|]. split; [exact Hfuel|]. split; [exact H1|].
  split; [exact H2|].
  exact (ForSection_render_range_split (impl := example_impl) 3 0 1 3 "i" _ ∅
           _ _ _ _ Hr Hfuel H1 H2).
Defined.

Lemma ForSection_nested_same_name_witness :
  (∅ : ValueByName) !! "x" = None
  /\ (0 < 2)%Z
  /\ children_text (render (impl := example_impl) 1) [Code "a" []]
       (<["x" := IntValue 0]> ∅)
     = Some "a"
  /\ render (impl := example_impl) 2
       (ForSection 0 2 "x" ([Code "a" []] ++ ForSection 5 9 "x" [] :: [])) ∅
     = Throws (already_exists "x") (<["x" := IntValue 0]> ∅).
Proof.
  assert ((∅ : ValueByName) !! "x" = None) as Hm by reflexivity.
  assert (0 < 2)%Z as Hlt by lia.
  assert (children_text (render (impl := example_impl) 1) [Code "a" []]
            (<["x" := IntValue 0]> ∅) = Some "a") as Hpre
    by (vm_compute; reflexivity).
  split; [exact Hm|]. split; [exact Hlt|]. split; [exact Hpre|].
  exact (ForSection_nested_same_name (impl := example_impl) 0 0 2 "x"
           [Code "a" []] 5 9 [] [] ∅ "a" Hm Hlt Hpre).
Defined.

Lemma ForSection_render_empty_body_witness :
  (∅ : ValueByName) !! "i" = None
  /\ (Z.to_nat (3 - 0) <= 3)%nat
  /\ render (impl := example_impl) 4 (ForSection 0 3 "i" []) ∅ = Returns "" ∅.
Proof.
  assert ((∅ : ValueByName) !! "i" = None) as Hm by reflexivity.
  assert (Z.to_nat (3 - 0) <= 3)%nat as Hfuel by (simpl; lia).
  split; [exact Hm|]. split; [exact Hfuel|].
  exact (ForSection_render_empty_body (impl := example_impl) 3 0 3 "i" ∅
           Hm Hfuel).
Defined.

Lemma render_error_sources_witness :
  render (impl := example_impl) 3
    (Root [ForSection 0 2 "x" [Code "{{y}}" []]]) ∅
  = Throws (SpecModel.unbound "y") {["x" := IntValue 0]}
  /\ ((exists varName,
         varName ∈ loop_vars (Root [ForSection 0 2 "x" [Code "{{y}}" []]])
         /\ SpecModel.unbound "y" = already_exists varName)
      \/ (exists templateCode m0,
            templateCode
              ∈ code_fragments (Root [ForSection 0 2 "x" [Code "{{y}}" []]])
            /\ doSubstitutions (TemplateImpl := example_impl) templateCode m0
               = inl (SpecModel.unbound "y"))).
Proof.
  assert (render (impl := example_impl) 3
            (Root [ForSection 0 2 "x" [Code "{{y}}" []]]) ∅
          = Throws (SpecModel.unbound "y") {["x" := IntValue 0]}) as Hret
    by (vm_compute; reflexivity).
  split; [exact Hret|].
  exact (render_error_sources (impl := example_impl) _ _ _ _ _ Hret).
Defined.

Lemma render_throw_binds_loop_vars_witness :
  render (impl := example_impl) 3 (ForSection 0 2 "x" [Code "{{y}}" []])
    {["k" := IntValue 1]}
  = Throws (SpecModel.unbound "y") (<["x" := IntValue 0]> {["k" := IntValue 1]})
  /\ ("y" ∉ loop_vars (ForSection 0 2 "x" [Code "{{y}}" []]))
  /\ (<["x" := IntValue 0]> {["k" := IntValue 1]} : ValueByName) !! "y"
     = ({["k" := IntValue 1]} : ValueByName) !! "y".
Proof.
  assert (render (impl := example_impl) 3 (ForSection 0 2 "x" [Code "{{y}}" []])
            {["k" := IntValue 1]}
          = Throws (SpecModel.unbound "y")
              (<["x" := IntValue 0]> {["k" := IntValue 1]})) as Hret
    by (vm_compute; reflexivity).
  assert ("y" ∉ loop_vars (ForSection 0 2 "x" [Code "{{y}}" []])) as Hy.
  { change ("y" ∉ ({["x"]} ∪ (∅ ∪ ∅) : gset string)).
    intros Hin. apply elem_of_union in Hin as [Hin|Hin].
    - apply elem_of_singleton in Hin. discriminate.
    - apply elem_of_union in Hin as [Hin|Hin];
        exact (not_elem_of_empty _ Hin). }
  split; [exact Hret|]. split; [exact Hy|].
  exact (render_throw_binds_loop_vars (impl := example_impl) _ _ _ _ _ _
           Hret Hy).
Defined.

Lemma render_well_scoped_returns_witness :
  well_scoped (Root [ForSection 0 3 "i" [Code "{{i}}," []]])
    (dom ({["k" := IntValue 1]} : ValueByName)) = true
  /\ (forall templateCode m0,
        rendered_at (impl := example_impl)
          (Root [ForSection 0 3 "i" [Code "{{i}}," []]])
          {["k" := IntValue 1]} templateCode m0 ->
        exists text,
          doSubstitutions (TemplateImpl := example_impl) templateCode m0
          = inr text)
  /\ (fuel_bound (Root [ForSection 0 3 "i" [Code "{{i}}," []]]) <= 5)%nat
  /\ exists text,
       render (impl := example_impl) 5
         (Root [ForSection 0 3 "i" [Code "{{i}}," []]]) {["k" := IntValue 1]}
       = Returns text {["k" := IntValue 1]}.
Proof.
  assert (well_scoped (Root [ForSection 0 3 "i" [Code "{{i}}," []]])
            (dom ({["k" := IntValue 1]} : ValueByName)) = true) as Hscoped
    by (vm_compute; reflexivity).
  assert (forall templateCode m0,
            rendered_at (impl := example_impl)
              (Root [ForSection 0 3 "i" [Code "{{i}}," []]])
              {["k" := IntValue 1]} templateCode m0 ->
            exists text,
              doSubstitutions (TemplateImpl := example_impl) templateCode m0
              = inr text) as Hcodes.
  { intros templateCode m0 Hat.
    inversion Hat as [|sections c m code m1 Hc Hat1| |]; subst.
    apply list_elem_of_singleton in Hc as ->.
    inversion Hat1 as [| |a e x sections c i m code m1 Hc Hi Hat2|]; subst.
    apply list_elem_of_singleton in Hc as ->.
    inversion Hat2; subst.
    assert (i = 0 \/ i = 1 \/ i = 2)%Z as [->|[->| ->]] by lia;
      eexists; vm_compute; reflexivity. }
  assert (fuel_bound (Root [ForSection 0 3 "i" [Code "{{i}}," []]]) <= 5)%nat
    as Hfuel by (vm_compute; lia).
  split; [exact Hscoped|]. split; [exact Hcodes|]. split; [exact Hfuel|].
  exact (render_well_scoped_returns (impl := example_impl) 5 _ _
           Hscoped Hcodes Hfuel).
Defined.

(** * Rendering on the pointers *)

Section HeapFacts.

Context {impl : TemplateImpl}.
Variable new : nat -> gmap positive Value -> positive.
Hypothesis new_fresh : Heap.fresh_addresses new.

Lemma same_memory_values st st' :
  Heap.same_memory st st' -> Heap.values st' = Heap.values st.
Proof. intros [Hh Hp]. unfold Heap.values. now rewrite Hh, Hp. Qed.

Lemma same_memory_live st st' :
  Heap.same_memory st st' -> Heap.live st -> Heap.live st'.
Proof. intros [Hh Hp]. unfold Heap.live. now rewrite Hh, Hp. Qed.

Lemma same_memory_trans st1 st2 st3 :
  Heap.same_memory st1 st2 -> Heap.same_memory st2 st3 ->
  Heap.same_memory st1 st3.
Proof. intros [Hh Hp] [Hh' Hp']. split; congruence. Qed.

Lemma values_lookup_None st name :
  Heap.valueByName st !! name = None -> Heap.values st !! name = None.
Proof. intros Hp. unfold Heap.values. now rewrite lookup_omap, Hp. Qed.

Lemma values_lookup_live st name a :
  Heap.live st -> Heap.valueByName st !! name = Some a ->
  is_Some (Heap.values st !! name).
Proof.
  intros Hlive Hp. unfold Heap.values. rewrite lookup_omap, Hp. simpl.
  exact (Hlive name a Hp).
Qed.

(** A new object under a name: the values get the binding, the other
    pointers still point to their objects. *)
Lemma values_allocate st varName value :
  Heap.live st ->
  Heap.values (Heap.allocate new varName value st)
  = <[varName := value]> (Heap.values st).
Proof.
  intros Hlive. apply map_eq. intros name.
  unfold Heap.values, Heap.allocate. simpl. rewrite lookup_omap.
  destruct (decide (varName = name)) as [->|Hne].
  - rewrite !lookup_insert_eq. simpl. now rewrite lookup_insert_eq.
  - rewrite !lookup_insert_ne by exact Hne. rewrite lookup_omap.
    destruct (Heap.valueByName st !! name) as [b|] eqn:Hb; [|reflexivity].
    simpl. apply lookup_insert_ne. intros <-.
    destruct (Hlive name _ Hb) as [v Hv].
    rewrite new_fresh in Hv. discriminate.
Qed.

Lemma live_allocate st varName value :
  Heap.live st -> Heap.live (Heap.allocate new varName value st).
Proof.
  intros Hlive. unfold Heap.live, Heap.allocate. simpl.
  apply map_Forall_insert_2.
  - rewrite lookup_insert_eq. now eexists.
  - intros name a Ha. apply lookup_insert_is_Some'. right.
    exact (Hlive name a Ha).
Qed.

(** [delete] and [erase] undo the allocation. *)
Lemma release_allocate st st' varName value :
  Heap.valueByName st !! varName = None ->
  Heap.same_memory (Heap.allocate new varName value st) st' ->
  Heap.same_memory st (Heap.release varName st').
Proof.
  intros Hp [Hh' Hp']. unfold Heap.release, Heap.same_memory. simpl.
  rewrite Hp', Hh'. unfold Heap.allocate. simpl.
  rewrite lookup_insert_eq. split.
  - apply delete_insert_id, new_fresh.
  - now apply delete_insert_id.
Qed.

Section Simulation.

Variable render_pointers : ControlSection -> Heap.state -> Heap.leaves.
Variable render_values : ControlSection -> ValueByName -> outcome.
Hypothesis sim : Heap.simulates render_pointers render_values.

Lemma render_sections_simulates sections : forall result st,
  Heap.live st ->
  Heap.observed (Heap.render_sections render_pointers sections result st)
  = render_sections render_values sections result (Heap.values st)
  /\ forall text st',
       Heap.render_sections render_pointers sections result st
       = Heap.Returned text st' ->
       Heap.same_memory st st'.
Proof.
  induction sections as [|c rest IH]; intros result st Hlive; simpl.
  - split; [reflexivity|]. intros text st' [= <- <-]. now split.
  - destruct (sim c st Hlive) as [Hobs Hframe].
    destruct (render_pointers c st) as [t1 st1|e1 st1|] eqn:Hc;
      simpl in Hobs; rewrite <- Hobs.
    + specialize (Hframe t1 st1 eq_refl).
      destruct (IH (result +:+ t1) st1 (same_memory_live _ _ Hframe Hlive))
        as [Hobs' Hframe'].
      split; [exact Hobs'|].
      intros text st' Hret.
      exact (same_memory_trans _ _ _ Hframe (Hframe' _ _ Hret)).
    + split; [reflexivity | discriminate].
    + split; [reflexivity | discriminate].
Qed.

Lemma for_loop_simulates loopEnd varName sections : forall fuel i result st,
  Heap.live st ->
  Heap.valueByName st !! varName = None ->
  Heap.observed
    (Heap.for_loop new render_pointers loopEnd varName sections fuel i result st)
  = for_loop render_values loopEnd varName sections fuel i result
      (Heap.values st)
  /\ forall text st',
       Heap.for_loop new render_pointers loopEnd varName sections fuel i
         result st
       = Heap.Returned text st' ->
       Heap.same_memory st st'.
Proof.
  induction fuel as [|fuel IH]; intros i result st Hlive Hp; simpl;
    destruct (i <? loopEnd)%Z;
    try (split; [reflexivity|]; intros text st' Hret;
         first [discriminate | injection Hret as <- <-; now split]).
  destruct (render_sections_simulates sections result
              (Heap.allocate new varName (IntValue i) st)
              (live_allocate _ _ _ Hlive)) as [Hobs Hframe].
  rewrite values_allocate in Hobs by exact Hlive.
  destruct (Heap.render_sections render_pointers sections result
              (Heap.allocate new varName (IntValue i) st))
    as [result' st1|e1 st1|] eqn:Hsec; simpl in Hobs; rewrite <- Hobs.
  - specialize (Hframe result' st1 eq_refl).
    pose proof (release_allocate _ _ _ _ Hp Hframe) as Hback.
    rewrite (same_memory_values _ _ Hframe), values_allocate by exact Hlive.
    rewrite delete_insert_id by now apply values_lookup_None.
    destruct (IH (i + 1)%Z result' (Heap.release varName st1))
      as [Hobs' Hframe'].
    + exact (same_memory_live _ _ Hback Hlive).
    + destruct Hback as [_ ->]. exact Hp.
    + rewrite (same_memory_values _ _ Hback) in Hobs'.
      split; [exact Hobs'|].
      intros text st' Hret.
      exact (same_memory_trans _ _ _ Hback (Hframe' _ _ Hret)).
  - split; [reflexivity | discriminate].
  - split; [reflexivity | discriminate].
Qed.

End Simulation.

(** The methods on the pointers do what the methods on the values do, and
    a call that returns leaves the store and the map as they were. *)
Lemma render_simulates fuel :
  Heap.simulates (Heap.render new fuel) (render fuel).
Proof.
  induction fuel as [|fuel IH]; intros section st Hlive;
    [split; [reflexivity | discriminate]|].
  destruct section as [sections|loopStart loopEnd varName sections
                      |templateCode sections|neg name sections]; simpl.
  - now apply render_sections_simulates.
  - destruct (Heap.valueByName st !! varName) as [a|] eqn:Hp.
    + destruct (values_lookup_live _ _ _ Hlive Hp) as [v ->].
      split; [reflexivity | discriminate].
    + rewrite (values_lookup_None _ _ Hp).
      now apply for_loop_simulates.
  - destruct (doSubstitutions templateCode (Heap.values st)).
    + split; [reflexivity | discriminate].
    + split; [reflexivity|]. intros text st' [= <- <-]. now split.
  - destruct (computeExpression neg name (Heap.values st)).
    + now apply render_sections_simulates.
    + split; [reflexivity|]. intros text st' [= <- <-]. now split.
Qed.

End HeapFacts.

(** C10: rendering is deterministic. Two runs on the same tree, each with
    its own free store, its own pointers in the map and its own choice of
    addresses by [new], started from maps that are equal as name to value
    maps, leave in the same way: the same text or the same error, and maps
    that are again equal as name to value maps. *)
Theorem render_deterministic {impl : TemplateImpl} new1 new2 fuel1 fuel2
    section (st1 st2 : Heap.state) :
  Heap.fresh_addresses new1 -> Heap.fresh_addresses new2 ->
  Heap.live st1 -> Heap.live st2 ->
  (forall name : string, Heap.values st1 !! name = Heap.values st2 !! name) ->
  Heap.render new1 fuel1 section st1 <> Heap.Unfinished ->
  Heap.render new2 fuel2 section st2 <> Heap.Unfinished ->
  Heap.observed (Heap.render new1 fuel1 section st1)
  = Heap.observed (Heap.render new2 fuel2 section st2).
Proof.
  intros Hnew1 Hnew2 Hlive1 Hlive2 Hsame Hfin1 Hfin2.
  apply map_eq in Hsame.
  destruct (render_simulates new1 Hnew1 fuel1 section st1 Hlive1) as [Hobs1 _].
  destruct (render_simulates new2 Hnew2 fuel2 section st2 Hlive2) as [Hobs2 _].
  rewrite Hobs1, Hobs2, Hsame.
  apply render_any_fuel.
  - rewrite <- Hsame, <- Hobs1.
    destruct (Heap.render new1 fuel1 section st1); (discriminate || congruence).
  - rewrite <- Hobs2.
    destruct (Heap.render new2 fuel2 section st2); (discriminate || congruence).
Qed.

(** The two example runs differ in memory: when the body throws, the
    object of the loop variable is left at a different address in each,
    while the caller observes the same error and the same values. *)
Example runs_differ_in_memory :
  (exists st1' st2',
     Heap.render (impl := example_impl) example_new1 3
       (ForSection 0 2 "i" [Code "{{missing}}" []]) example_state1
     = Heap.Thrown (SpecModel.unbound "missing") st1'
     /\ Heap.render (impl := example_impl) example_new2 3
          (ForSection 0 2 "i" [Code "{{missing}}" []]) example_state2
        = Heap.Thrown (SpecModel.unbound "missing") st2'
     /\ Heap.valueByName st1' !! "i" = Some 6%positive
     /\ Heap.valueByName st2' !! "i" = Some 10%positive
     /\ Heap.values st1' = Heap.values st2').
Proof.
  eexists _, _. repeat split; vm_compute; reflexivity.
Qed.

Lemma example_new1_fresh : Heap.fresh_addresses example_new1.
Proof.
  intros k h. apply not_elem_of_dom. unfold example_new1. apply is_fresh.
Qed.

Lemma example_new2_fresh : Heap.fresh_addresses example_new2.
Proof.
  intros k h. apply not_elem_of_dom. unfold example_new2.
  pose proof (is_fresh ({[Pos.of_succ_nat k]} ∪ dom h)) as Hfresh.
  set_solver.
Qed.

Lemma render_deterministic_witness :
  Heap.fresh_addresses example_new1
  /\ Heap.fresh_addresses example_new2
  /\ Heap.live example_state1
  /\ Heap.live example_state2
  /\ (forall name : string,
        Heap.values example_state1 !! name = Heap.values example_state2 !! name)
  /\ Heap.observed
       (Heap.render (impl := example_impl) example_new1 4
          (Root [ForSection 0 2 "i" [Code "{{a}}{{b}}{{i}};" []]])
          example_state1)
     = Heap.observed
         (Heap.render (impl := example_impl) example_new2 6
            (Root [ForSection 0 2 "i" [Code "{{a}}{{b}}{{i}};" []]])
            example_state2).
Proof.
  assert (Heap.live example_state1) as Hlive1
    by (apply (bool_decide_unpack _); vm_compute; exact I).
  assert (Heap.live example_state2) as Hlive2
    by (apply (bool_decide_unpack _); vm_compute; exact I).
  assert (forall name : string,
            Heap.values example_state1 !! name
            = Heap.values example_state2 !! name) as Hsame.
  { intros name.
    assert (Heap.values example_state1 = Heap.values example_state2) as ->
      by (vm_compute; reflexivity).
    reflexivity. }
  split; [exact example_new1_fresh|]. split; [exact example_new2_fresh|].
  split; [exact Hlive1|]. split; [exact Hlive2|]. split; [exact Hsame|].
  apply (render_deterministic (impl := example_impl) example_new1 example_new2
           4 6 _ _ _ example_new1_fresh example_new2_fresh Hlive1 Hlive2 Hsame);
    vm_compute; discriminate.
Defined.
